(** * The storyboard generator of [src/index.tsx]

    A shallow embedding of the [App] component: its state, the asynchronous
    [generateStoryboard] handler and the two navigation handlers
    [handlePrev] and [handleNext].

    The two generative services are the environment.  A run of
    [generateStoryboard] is modelled as the ordered trace of what it does to
    the outside: the React state setters it calls, the requests it sends and
    what it writes to the console, together with the way the handler
    completes. *)

From Stdlib Require Import ZArith NArith Lia String Ascii List.
From stdpp Require Import base list.
Import ListNotations.

Local Open Scope Z_scope.
Set Warnings "-register-all".

(** ** JavaScript strings *)

(** A JavaScript string is a sequence of UTF-16 code units. *)
Definition JsString : Type := list N.

(** The code units of an ASCII literal of the source text. *)
Definition js (s : string) : JsString :=
  map N_of_ascii (list_ascii_of_string s).

Definition dquote : JsString := [34%N].
Definition newline : JsString := [10%N].

(** [WhiteSpace] and [LineTerminator] of ECMAScript, the code units that
    [String.prototype.trim] strips: TAB, LF, VT, FF, CR, SP, NBSP,
    U+1680, U+2000..U+200A, LS, PS, U+202F, U+205F, U+3000 and U+FEFF. *)
Definition is_white_space (c : N) : bool :=
  ((9 <=? c) && (c <=? 13) || (c =? 32) || (c =? 160) || (c =? 5760)
   || (8192 <=? c) && (c <=? 8202) || (c =? 8232) || (c =? 8233)
   || (c =? 8239) || (c =? 8287) || (c =? 12288) || (c =? 65279))%N.

Fixpoint trim_start (s : JsString) : JsString :=
  match s with
  | c :: s' => if is_white_space c then trim_start s' else s
  | [] => []
  end.

Definition trim_end (s : JsString) : JsString := rev (trim_start (rev s)).

(** [s.trim()] *)
Definition trim (s : JsString) : JsString := trim_end (trim_start s).

(** [s.trim() === ""] *)
Definition is_blank (s : JsString) : bool :=
  match trim s with [] => true | _ :: _ => false end.

(** What the specification calls a blank concept: the empty string or a
    string of white space only. *)
Definition whitespace_only (s : JsString) : bool := forallb is_white_space s.

(** ** JavaScript values *)

(** A Number is opaque to this program: the only thing ever asked of one is
    its text inside a template literal.  It is kept as that text
    ([Number::toString]) with a flag telling whether its value is an
    integer. *)
Record Number := { number_is_integer : bool; number_text : JsString }.

(** The values [JSON.parse] can deliver, and [undefined], which reading a
    missing property gives.  An object is the list of its own properties. *)
Inductive JsValue :=
| JUndefined
| JNull
| JBool (b : bool)
| JNumber (n : Number)
| JString (s : JsString)
| JArray (items : list JsValue)
| JObject (props : list (JsString * JsValue)).

Fixpoint code_units_eqb (a b : JsString) : bool :=
  match a, b with
  | [], [] => true
  | x :: a', y :: b' => (x =? y)%N && code_units_eqb a' b'
  | _, _ => false
  end.

(** The own property [key] of an object, if it has one. *)
Fixpoint own_property (key : JsString) (props : list (JsString * JsValue))
  : option JsValue :=
  match props with
  | [] => None
  | (k, v) :: props' =>
      if code_units_eqb key k then Some v else own_property key props'
  end.

(** ** Exceptions *)

Inductive Exn :=
| ServiceError   (* an awaited service call rejected *)
| SyntaxError    (* JSON.parse on text that is no JSON *)
| TypeError.     (* property read on undefined or null, call of a
                    non-function, object without a primitive value *)

(** How an expression or a statement completes. *)
Inductive Completion (A : Type) :=
| Normal (a : A)
| Throw (e : Exn).
Arguments Normal {A} a.
Arguments Throw {A} e.

Definition cbind {A B} (c : Completion A) (f : A -> Completion B)
  : Completion B :=
  match c with
  | Normal a => f a
  | Throw e => Throw e
  end.

Definition throws {A} (c : Completion A) : bool :=
  match c with Normal _ => false | Throw _ => true end.

(** [array.map(f)] for an [f] that may throw: elements are visited in order
    and the first exception ends the call. *)
Fixpoint map_throwing {A B} (f : A -> Completion B) (l : list A)
  : Completion (list B) :=
  match l with
  | [] => Normal []
  | x :: l' =>
      cbind (f x) (fun y => cbind (map_throwing f l') (fun ys => Normal (y :: ys)))
  end.

(** [ToString], as a template literal applies it to a substitution.  An
    array goes through [Array.prototype.join], which renders [undefined] and
    [null] elements as the empty string.  An object parsed from JSON has no
    callable property of its own, so it renders through
    [Object.prototype.toString] unless an own [toString] property hides
    that method, in which case no primitive value is found. *)
Fixpoint ToString (v : JsValue) : Completion JsString :=
  match v with
  | JUndefined => Normal (js "undefined")
  | JNull => Normal (js "null")
  | JBool b => Normal (js (if b then "true" else "false"))
  | JNumber n => Normal (number_text n)
  | JString s => Normal s
  | JArray items =>
      (fix join (xs : list JsValue) : Completion JsString :=
         match xs with
         | [] => Normal []
         | x :: rest =>
             cbind (match x with
                    | JUndefined | JNull => Normal []
                    | _ => ToString x
                    end)
               (fun sx =>
                  match rest with
                  | [] => Normal sx
                  | _ :: _ => cbind (join rest) (fun sr => Normal (sx ++ js "," ++ sr))
                  end)
         end) items
  | JObject props =>
      match own_property (js "toString") props with
      | Some _ => Throw TypeError
      | None => Normal (js "[object Object]")
      end
  end.

(** ** The data of the component *)

Record Scene := {
  narration : JsValue;
  imageUrl : option JsString;
  isLoadingImage : bool
}.

(** The five [useState] cells of [App]. *)
Record AppState := {
  storyboard : list Scene;
  concept : JsString;
  currentSceneIndex : Z;
  isLoading : bool;
  error : option JsString
}.

(** The state [App] is first rendered with. *)
Definition initial_state : AppState :=
  {| storyboard := []; concept := []; currentSceneIndex := 0;
     isLoading := false; error := None |}.

(** ** The services *)

(** The response of [ai.models.generateImages]: every field is optional. *)
Record Image := { imageBytes : option JsString }.
Record GeneratedImage := { image : option Image }.
Record GenerateImagesResponse := {
  generatedImages : option (list GeneratedImage)
}.

(** The response of [ai.models.generateContent], seen through the one use
    the handler makes of it, [JSON.parse(narrationResponse.text)]: the value
    the text parses to, or [None] when [JSON.parse] throws (the response
    carries no text or the text is not JSON). *)
Record GenerateContentResponse := { text_as_json : option JsValue }.

(** One run's view of the two services: how the awaited [generateContent]
    call sent with a prompt settles, and how the [i]-th awaited
    [generateImages] call of the run, sent with a prompt, settles.  A call
    that rejects throws [ServiceError]. *)
Record Services := {
  generateContent : JsString -> Completion GenerateContentResponse;
  generateImages : nat -> JsString -> Completion GenerateImagesResponse
}.

(** ** Traces *)

Inductive Event :=
| SetIsLoading (b : bool)
| SetError (e : option JsString)
| SetStoryboard (sb : list Scene)
| SetCurrentSceneIndex (i : Z)
| CallGenerateContent (prompt : JsString)
| CallGenerateImages (prompt : JsString)
| ConsoleError (e : Exn).

(** A piece of the handler: the events it produces, in order, and how it
    completes. *)
Definition Run (A : Type) : Type := list Event * Completion A.

Definition ret {A} (a : A) : Run A := ([], Normal a).

Definition bind {A B} (m : Run A) (f : A -> Run B) : Run B :=
  match m with
  | (t, Normal a) => let '(t', r) := f a in (t ++ t', r)
  | (t, Throw e) => (t, Throw e)
  end.

Definition emit (ev : Event) : Run unit := ([ev], Normal tt).

(** An expression without effect on the outside. *)
Definition eval {A} (c : Completion A) : Run A := ([], c).

(** [await] of a service call: the request goes out, then the call settles. *)
Definition await {A} (request : Event) (settled : Completion A) : Run A :=
  ([request], settled).

(** [try { m } catch (e) { handler e }] *)
Definition try_catch {A} (m : Run A) (handler : Exn -> Run A) : Run A :=
  match m with
  | (t, Normal a) => (t, Normal a)
  | (t, Throw e) => let '(t', r) := handler e in (t ++ t', r)
  end.

(** [try { m } finally { cleanup }], for a [cleanup] that completes
    normally or throws. *)
Definition try_finally {A} (m : Run A) (cleanup : Run unit) : Run A :=
  let '(t, r) := m in
  let '(t', r') := cleanup in
  (t ++ t', match r' with Normal _ => r | Throw e => Throw e end).

Declare Scope run_scope.
Delimit Scope run_scope with run.
Notation "x <- m ;; k" := (bind m (fun x => k))
  (at level 100, m at next level, right associativity) : run_scope.
Notation "m ;; k" := (bind m (fun _ => k))
  (at level 100, right associativity) : run_scope.
Local Open Scope run_scope.

Definition trace {A} (m : Run A) : list Event := fst m.
Definition completion {A} (m : Run A) : Completion A := snd m.

(** ** State updates *)

Definition set_isLoading (b : bool) (st : AppState) : AppState :=
  {| storyboard := storyboard st; concept := concept st;
     currentSceneIndex := currentSceneIndex st;
     isLoading := b; error := error st |}.

Definition set_error (e : option JsString) (st : AppState) : AppState :=
  {| storyboard := storyboard st; concept := concept st;
     currentSceneIndex := currentSceneIndex st;
     isLoading := isLoading st; error := e |}.

Definition set_storyboard (sb : list Scene) (st : AppState) : AppState :=
  {| storyboard := sb; concept := concept st;
     currentSceneIndex := currentSceneIndex st;
     isLoading := isLoading st; error := error st |}.

Definition set_currentSceneIndex (i : Z) (st : AppState) : AppState :=
  {| storyboard := storyboard st; concept := concept st;
     currentSceneIndex := i;
     isLoading := isLoading st; error := error st |}.

(** What one event does to the state: a setter stores its argument, a
    request or a console line leaves the state alone. *)
Definition apply_event (st : AppState) (ev : Event) : AppState :=
  match ev with
  | SetIsLoading b => set_isLoading b st
  | SetError e => set_error e st
  | SetStoryboard sb => set_storyboard sb st
  | SetCurrentSceneIndex i => set_currentSceneIndex i st
  | CallGenerateContent _ | CallGenerateImages _ | ConsoleError _ => st
  end.

Definition apply_trace (st : AppState) (t : list Event) : AppState :=
  fold_left apply_event t st.

(** ** [generateStoryboard] *)

Definition validation_message : JsString :=
  js "Please enter a concept to explain.".

Definition failure_message : JsString :=
  js "Failed to generate the storyboard. Please try again.".

(** Lines 32-37. *)
Definition narrationPrompt (concept : JsString) : JsString :=
  newline
  ++ js "        You are an AI storyteller for 6-year-olds." ++ newline
  ++ js "        Explain the concept " ++ dquote ++ concept ++ dquote
  ++ js "." ++ newline
  ++ js "        Create a storyboard with 5 scenes." ++ newline
  ++ js "        For each scene, provide a short narration (2-3 simple sentences)."
  ++ newline
  ++ js "      ".

(** Line 57. *)
Definition JSON_parse_text (r : GenerateContentResponse) : Completion JsValue :=
  match text_as_json r with
  | Some v => Normal v
  | None => Throw SyntaxError
  end.

(** [s.narration]: a property read throws on [undefined] and [null]; an
    object gives its own property or, none of its prototypes having one of
    that name, [undefined]; so does every other value. *)
Definition get_narration (s : JsValue) : Completion JsValue :=
  match s with
  | JUndefined | JNull => Throw TypeError
  | JObject props =>
      Normal (match own_property (js "narration") props with
              | Some v => v
              | None => JUndefined
              end)
  | _ => Normal JUndefined
  end.

(** The callback of line 58. *)
Definition to_scene (s : JsValue) : Completion Scene :=
  cbind (get_narration s) (fun n =>
    Normal {| narration := n; imageUrl := None; isLoadingImage := true |}).

(** Lines 58-62, [parsedScenes.map(...)]: only an array has a [map] method;
    on any other parsed value the call throws. *)
Definition initialStoryboard (parsedScenes : JsValue) : Completion (list Scene) :=
  match parsedScenes with
  | JArray items => map_throwing to_scene items
  | _ => Throw TypeError
  end.

(** Lines 69-73. *)
Definition imagePrompt (scene : Scene) : Completion JsString :=
  cbind (ToString (narration scene)) (fun text =>
    Normal (newline
      ++ js "          A cute, small robot character named Glitch with a single glowing purple eye."
      ++ newline
      ++ js "          Scene: " ++ text ++ js "." ++ newline
      ++ js "          Style: 16-bit pixel art, dark cyberpunk style with neon accents (purple, blue, pink), consistent proportions, clear outlines."
      ++ newline
      ++ js "        ")).

(** Lines 86-87, [imageResponse.generatedImages[0].image.imageBytes] put
    into the data URL: reading through a missing [generatedImages], a
    missing first element or a missing [image] throws; missing
    [imageBytes] are rendered by the template literal as [undefined]. *)
Definition image_data_url (imageResponse : GenerateImagesResponse)
  : Completion JsString :=
  match generatedImages imageResponse with
  | None => Throw TypeError
  | Some images =>
      match images with
      | [] => Throw TypeError
      | first :: _ =>
          match image first with
          | None => Throw TypeError
          | Some img =>
              Normal (js "data:image/jpeg;base64,"
                      ++ match imageBytes img with
                         | Some base64ImageBytes => base64ImageBytes
                         | None => js "undefined"
                         end)
          end
      end
  end.

(** Lines 89-91: [{ ...s, imageUrl, isLoadingImage: false }] at index [i]. *)
Definition with_image (i : nat) (url : JsString) (sb : list Scene) : list Scene :=
  imap (fun index s =>
          if Nat.eqb index i
          then {| narration := narration s; imageUrl := Some url;
                  isLoadingImage := false |}
          else s) sb.

(** Lines 96-98: [{ ...s, isLoadingImage: false, imageUrl: null }] at
    index [i]. *)
Definition without_image (i : nat) (sb : list Scene) : list Scene :=
  imap (fun index s =>
          if Nat.eqb index i
          then {| narration := narration s; imageUrl := None;
                  isLoadingImage := false |}
          else s) sb.

(** The loop of lines 67-101, entered at index [i] with [pending] the
    scenes of [initialStoryboard] from index [i] on: the head of [pending]
    is [initialStoryboard[i]] and the loop ends when [pending] is empty,
    that is when [i] reaches [initialStoryboard.length].  The prompt is
    built outside the inner [try]. *)
Fixpoint image_loop (ai : Services) (i : nat) (pending : list Scene)
  (currentStoryboard : list Scene) : Run unit :=
  match pending with
  | [] => ret tt
  | scene :: pending' =>
      prompt <- eval (imagePrompt scene) ;;
      currentStoryboard' <-
        try_catch
          (imageResponse <- await (CallGenerateImages prompt)
                                  (generateImages ai i prompt) ;;
           url <- eval (image_data_url imageResponse) ;;
           emit (SetStoryboard (with_image i url currentStoryboard)) ;;
           ret (with_image i url currentStoryboard))
          (fun imageError =>
             emit (ConsoleError imageError) ;;
             emit (SetStoryboard (without_image i currentStoryboard)) ;;
             ret (without_image i currentStoryboard)) ;;
      image_loop ai (S i) pending' currentStoryboard'
  end.

(** Lines 30-101, the body of the outer [try]. *)
Definition generate (ai : Services) (concept : JsString) : Run unit :=
  narrationResponse <- await (CallGenerateContent (narrationPrompt concept))
                             (generateContent ai (narrationPrompt concept)) ;;
  parsedScenes <- eval (JSON_parse_text narrationResponse) ;;
  initial <- eval (initialStoryboard parsedScenes) ;;
  emit (SetStoryboard initial) ;;
  image_loop ai 0 initial initial.

(** Lines 20-108.  The handler reads [concept] from the state it was
    rendered with. *)
Definition generateStoryboard (ai : Services) (st : AppState) : Run unit :=
  if is_blank (concept st) then
    emit (SetError (Some validation_message))
  else
    emit (SetIsLoading true) ;;
    emit (SetError None) ;;
    emit (SetStoryboard []) ;;
    emit (SetCurrentSceneIndex 0) ;;
    try_finally
      (try_catch (generate ai (concept st))
         (fun e =>
            emit (ConsoleError e) ;;
            emit (SetError (Some failure_message))))
      (emit (SetIsLoading false)).

(** The state once the run is over. *)
Definition state_after (ai : Services) (st : AppState) : AppState :=
  apply_trace st (trace (generateStoryboard ai st)).

(** ** Navigation *)

(** Lines 110-112. *)
Definition handlePrev (st : AppState) : AppState :=
  set_currentSceneIndex (Z.max (currentSceneIndex st - 1) 0) st.

(** Lines 114-116. *)
Definition handleNext (st : AppState) : AppState :=
  set_currentSceneIndex
    (Z.min (currentSceneIndex st + 1) (Z.of_nat (length (storyboard st)) - 1)) st.

(** Line 138, [setConcept(e.target.value)]. *)
Definition set_concept (c : JsString) (st : AppState) : AppState :=
  {| storyboard := storyboard st; concept := c;
     currentSceneIndex := currentSceneIndex st;
     isLoading := isLoading st; error := error st |}.

Inductive NavOp := Prev | Next.

Definition navigate (st : AppState) (op : NavOp) : AppState :=
  match op with
  | Prev => handlePrev st
  | Next => handleNext st
  end.

Definition cursor_in_range (st : AppState) : Prop :=
  0 <= currentSceneIndex st <= Z.of_nat (length (storyboard st)) - 1.

(** The states of the component: it starts in [initial_state]; the user
    types, presses Prev or Next; and an event of a run of
    [generateStoryboard], started in whatever state, takes effect.  Events of
    runs may interleave with the navigation in any way. *)
Inductive reachable : AppState -> Prop :=
| reach_initial : reachable initial_state
| reach_concept st c : reachable st -> reachable (set_concept c st)
| reach_prev st : reachable st -> reachable (handlePrev st)
| reach_next st : reachable st -> reachable (handleNext st)
| reach_event st ai st0 ev :
    reachable st ->
    ev ∈ trace (generateStoryboard ai st0) ->
    reachable (apply_event st ev).

(** ** Observing a run *)

(** The arguments of the [setStoryboard] calls of a trace, in order. *)
Definition published (t : list Event) : list (list Scene) :=
  omap (fun ev => match ev with SetStoryboard sb => Some sb | _ => None end) t.

Definition error_updates (t : list Event) : list (option JsString) :=
  omap (fun ev => match ev with SetError e => Some e | _ => None end) t.

Definition busy_updates (t : list Event) : list bool :=
  omap (fun ev => match ev with SetIsLoading b => Some b | _ => None end) t.

Definition cursor_updates (t : list Event) : list Z :=
  omap (fun ev => match ev with SetCurrentSceneIndex i => Some i | _ => None end) t.

Definition is_request (ev : Event) : bool :=
  match ev with
  | CallGenerateContent _ | CallGenerateImages _ => true
  | _ => false
  end.

(** The requests sent to the services, in order. *)
Definition requests (t : list Event) : list Event :=
  omap (fun ev => if is_request ev then Some ev else None) t.

Definition prologue : list Event :=
  [SetIsLoading true; SetError None; SetStoryboard []; SetCurrentSceneIndex 0].

(** What the outer [catch] and the [finally] add to the trace. *)
Definition epilogue {A} (r : Completion A) : list Event :=
  match r with
  | Normal _ => []
  | Throw e => [ConsoleError e; SetError (Some failure_message)]
  end ++ [SetIsLoading false].

Definition catch_log {A} (r : Completion A) : list Event :=
  match r with
  | Normal _ => []
  | Throw e => [ConsoleError e]
  end.

(** The events the loop can produce. *)
Definition loop_event (ev : Event) : bool :=
  match ev with
  | CallGenerateImages _ | ConsoleError _ | SetStoryboard _ => true
  | _ => false
  end.

(** ** The two phases, seen from the services *)

(** Lines 39-62 as one expression: the initial storyboard, or the exception
    that sends the run to the outer [catch] before anything is installed. *)
Definition narration_phase (ai : Services) (concept : JsString)
  : Completion (list Scene) :=
  cbind (generateContent ai (narrationPrompt concept)) (fun narrationResponse =>
  cbind (JSON_parse_text narrationResponse) initialStoryboard).

(** Lines 76-87 as one expression: the data URL of scene [i], or the
    exception the inner [catch] receives. *)
Definition image_result (ai : Services) (i : nat) (prompt : JsString)
  : Completion JsString :=
  cbind (generateImages ai i prompt) image_data_url.

(** What the inner [try]/[catch] makes of [currentStoryboard]. *)
Definition merge_result (i : nat) (r : Completion JsString) (sb : list Scene)
  : list Scene :=
  match r with
  | Normal url => with_image i url sb
  | Throw _ => without_image i sb
  end.

(** The number of scenes at the head of [pending] whose prompt can be
    built: the number of turns the loop takes. *)
Fixpoint rendered (pending : list Scene) : nat :=
  match pending with
  | [] => 0%nat
  | scene :: pending' =>
      match imagePrompt scene with
      | Normal _ => S (rendered pending')
      | Throw _ => 0%nat
      end
  end.

(** How the loop completes: with the exception of the first prompt that
    cannot be built, if there is one. *)
Fixpoint prompts_completion (pending : list Scene) : Completion unit :=
  match pending with
  | [] => Normal tt
  | scene :: pending' =>
      match imagePrompt scene with
      | Normal _ => prompts_completion pending'
      | Throw e => Throw e
      end
  end.

(** The [imageUrl] scene [i] of the initial storyboard ends with: the data
    URL when its image call succeeds, [null] when it fails. *)
Definition settled_url (ai : Services) (i : nat) (scene : Scene)
  : option JsString :=
  match imagePrompt scene with
  | Normal prompt =>
      match image_result ai i prompt with
      | Normal url => Some url
      | Throw _ => None
      end
  | Throw _ => None
  end.

Definition settle (ai : Services) (i : nat) (scene : Scene) : Scene :=
  {| narration := narration scene; imageUrl := settled_url ai i scene;
     isLoadingImage := false |}.

(** The storyboard once the images of its first [k] scenes have settled. *)
Definition stage (ai : Services) (initial : list Scene) (k : nat) : list Scene :=
  imap (fun j s => if Nat.ltb j k then settle ai j s else s) initial.

(** A scene as line 58 creates it. *)
Definition fresh (s : Scene) : Prop :=
  isLoadingImage s = true /\ imageUrl s = None.

(** A scene whose image prompt can be built. *)
Definition renderable (s : Scene) : Prop :=
  exists prompt, imagePrompt s = Normal prompt.




(** ** What the narration phase accepts *)

(** [item.narration] for an item that is neither [undefined] nor [null]. *)
Definition narration_field (item : JsValue) : JsValue :=
  match item with
  | JObject props =>
      match own_property (js "narration") props with
      | Some v => v
      | None => JUndefined
      end
  | _ => JUndefined
  end.

Definition is_nullish (v : JsValue) : bool :=
  match v with
  | JUndefined | JNull => true
  | _ => false
  end.

(** The parsed values line 58 maps without throwing: the arrays without a
    [null] element. *)
Definition accepted (v : JsValue) : bool :=
  match v with
  | JArray items => forallb (fun item => negb (is_nullish item)) items
  | _ => false
  end.

(** The text-generation call fails, or what it returns is turned down: its
    text is not JSON, or parses to something that is not an array or to an
    array with a [null] element. *)
Definition text_rejected (ai : Services) (concept : JsString) : Prop :=
  match generateContent ai (narrationPrompt concept) with
  | Throw _ => True
  | Normal narrationResponse =>
      match text_as_json narrationResponse with
      | None => True
      | Some parsedScenes => accepted parsedScenes = false
      end
  end.

(** The declared output shape as the specification words it: a JSON array
    of objects each having an integer [scene] field and a string [narration]
    field. *)
Definition conforms_item (item : JsValue) : bool :=
  match item with
  | JObject props =>
      match own_property (js "scene") props,
            own_property (js "narration") props with
      | Some (JNumber n), Some (JString _) => number_is_integer n
      | _, _ => false
      end
  | _ => false
  end.

Definition conforms_schema (v : JsValue) : bool :=
  match v with
  | JArray items => forallb conforms_item items
  | _ => false
  end.

(** ** Concrete runs *)

Definition integer (text : string) : Number :=
  {| number_is_integer := true; number_text := js text |}.

(** [{"scene": index, "narration": text}] *)
Definition scene_item (index text : string) : JsValue :=
  JObject [(js "scene", JNumber (integer index));
           (js "narration", JString (js text))].

(** A text service whose response text parses to [v]. *)
Definition replies (v : JsValue) : JsString -> Completion GenerateContentResponse :=
  fun _ => Normal {| text_as_json := Some v |}.

(** An image response carrying one image. *)
Definition one_image (bytes : string) : Completion GenerateImagesResponse :=
  Normal {| generatedImages :=
              Some [{| image := Some {| imageBytes := Some (js bytes) |} |}] |}.

(** The state after the user typed a concept into a fresh page. *)
Definition typed (c : string) : AppState :=
  {| storyboard := []; concept := js c; currentSceneIndex := 0;
     isLoading := false; error := None |}.

Definition text_scene (text : string) : Scene :=
  {| narration := JString (js text); imageUrl := None; isLoadingImage := true |}.

Definition five_scenes : JsValue :=
  JArray [scene_item "1" "Glitch drops a ball.";
          scene_item "2" "The ball falls down.";
          scene_item "3" "The ground pulls it.";
          scene_item "4" "Big things pull more.";
          scene_item "5" "That pull is gravity."].

Definition five_initial : list Scene :=
  [text_scene "Glitch drops a ball.";
   text_scene "The ball falls down.";
   text_scene "The ground pulls it.";
   text_scene "Big things pull more.";
   text_scene "That pull is gravity."].

(** Five conforming scenes; the image response of scene 2 carries no image,
    every other image call succeeds. *)
Definition third_image_unreadable : Services :=
  {| generateContent := replies five_scenes;
     generateImages := fun i _ =>
       if Nat.eqb i 2 then Normal {| generatedImages := Some [] |}
       else one_image "QUJD" |}.

(** Two conforming scenes, the second with an empty narration. *)
Definition two_scenes : Services :=
  {| generateContent :=
       replies (JArray [scene_item "1" "Rockets push down."; scene_item "2" ""]);
     generateImages := fun _ _ => one_image "QUJD" |}.

(** [[{"scene": 1}]]: one element, without narration. *)
Definition narration_missing : JsValue :=
  JArray [JObject [(js "scene", JNumber (integer "1"))]].

Definition missing_narration : Services :=
  {| generateContent := replies narration_missing;
     generateImages := fun _ _ => one_image "QUJD" |}.

(** The text service is down. *)
Definition text_service_down : Services :=
  {| generateContent := fun _ => Throw ServiceError;
     generateImages := fun _ _ => one_image "QUJD" |}.

(** A page showing the message of a failed run, a new concept typed in. *)
Definition after_failure : AppState :=
  {| storyboard := []; concept := js "gravity"; currentSceneIndex := 0;
     isLoading := false; error := Some failure_message |}.

(** A page showing the second of two scenes. *)
Definition on_last_scene : AppState :=
  {| storyboard := [text_scene "a"; text_scene "b"]; concept := js "gravity";
     currentSceneIndex := 1; isLoading := false; error := None |}.



(** [[{"scene": "one", "narration": 7}, {}]]: the fields of the first element
    have the wrong types, the second element has no field at all. *)
Definition fields_malformed : JsValue :=
  JArray [JObject [(js "scene", JString (js "one"));
                   (js "narration", JNumber (integer "7"))];
          JObject []].

Definition malformed_fields : Services :=
  {| generateContent := replies fields_malformed;
     generateImages := fun _ _ => one_image "QUJD" |}.

(** ** The page *)

(** Whether a [string | null] counts as true in a condition: neither [null]
    nor the empty string. *)
Definition truthy (s : option JsString) : bool :=
  match s with
  | Some (_ :: _) => true
  | _ => false
  end.

(** Line 118, [storyboard[currentSceneIndex]]: [undefined] outside the
    array. *)
Definition currentScene (st : AppState) : option Scene :=
  if currentSceneIndex st <? 0 then None
  else storyboard st !! Z.to_nat (currentSceneIndex st).

(** Line 127: the input and the button. *)
Definition form_shown (st : AppState) : bool :=
  Nat.eqb (length (storyboard st)) 0 && negb (isLoading st).

(** Line 146. *)
Definition generate_disabled (st : AppState) : bool :=
  isLoading st || is_blank (concept st).

(** Line 154. *)
Definition text_loader_shown (st : AppState) : bool :=
  isLoading st && Nat.eqb (length (storyboard st)) 0.

(** Line 156. *)
Definition error_shown (st : AppState) : bool := truthy (error st).

(** Line 158: the scene with the carousel buttons. *)
Definition scene_shown (st : AppState) : bool :=
  Nat.ltb 0 (length (storyboard st))
  && match currentScene st with Some _ => true | None => false end.

(** Lines 162, 165 and 172: what the image container holds. *)
Definition image_loader_shown (s : Scene) : bool := isLoadingImage s.

Definition image_shown (s : Scene) : bool :=
  negb (isLoadingImage s) && truthy (imageUrl s).

Definition image_fallback_shown (s : Scene) : bool :=
  negb (isLoadingImage s) && negb (truthy (imageUrl s)).

(** Lines 180 and 186. *)
Definition prev_disabled (st : AppState) : bool := currentSceneIndex st =? 0.

Definition next_disabled (st : AppState) : bool :=
  currentSceneIndex st =? Z.of_nat (length (storyboard st)) - 1.

(** ** The user at the page *)

(** The page: the state it was last rendered with, and for every run of
    [generateStoryboard] that is suspended at an [await] the events it has yet
    to produce. *)
Record Page := { page_state : AppState; in_flight : list (list Event) }.

Definition first_page : Page := {| page_state := initial_state; in_flight := [] |}.

(** What can happen next: the user types into the input, presses one of the
    three buttons, or the [k]-th suspended run goes one event further. *)
Inductive Action :=
| TypeConcept (c : JsString)
| ClickGenerate (ai : Services)
| ClickPrev
| ClickNext
| Settle (k : nat).

(** A control can be used when the conditions of the JSX render it and do
    not disable it.  Rendering itself is taken to succeed; a page that React
    fails to render offers less, not more. *)
Definition offered (p : Page) (a : Action) : bool :=
  match a with
  | TypeConcept _ => form_shown (page_state p)
  | ClickGenerate _ =>
      form_shown (page_state p) && negb (generate_disabled (page_state p))
  | ClickPrev => scene_shown (page_state p) && negb (prev_disabled (page_state p))
  | ClickNext => scene_shown (page_state p) && negb (next_disabled (page_state p))
  | Settle k =>
      match in_flight p !! k with Some _ => true | None => false end
  end.

(** An async function runs without interruption up to its first [await],
    here the request of line 39: the events up to and with the first request,
    and the events left for later. *)
Fixpoint until_await (t : list Event) : list Event * list Event :=
  match t with
  | [] => ([], [])
  | ev :: t' =>
      if is_request ev then ([ev], t')
      else let '(now, later) := until_await t' in (ev :: now, later)
  end.

Definition suspend (later : list Event) (runs : list (list Event))
  : list (list Event) :=
  match later with
  | [] => runs
  | _ :: _ => runs ++ [later]
  end.

(** A suspended run goes further one event at a time, which lets the user in
    at least wherever the real run awaits. *)
Definition perform (p : Page) (a : Action) : Page :=
  match a with
  | TypeConcept c =>
      {| page_state := set_concept c (page_state p); in_flight := in_flight p |}
  | ClickGenerate ai =>
      let '(now, later) :=
        until_await (trace (generateStoryboard ai (page_state p))) in
      {| page_state := apply_trace (page_state p) now;
         in_flight := suspend later (in_flight p) |}
  | ClickPrev =>
      {| page_state := handlePrev (page_state p); in_flight := in_flight p |}
  | ClickNext =>
      {| page_state := handleNext (page_state p); in_flight := in_flight p |}
  | Settle k =>
      match in_flight p !! k with
      | Some (ev :: rest) =>
          {| page_state := apply_event (page_state p) ev;
             in_flight := match rest with
                          | [] => delete k (in_flight p)
                          | _ :: _ => <[k := rest]> (in_flight p)
                          end |}
      | _ => p
      end
  end.

(** The pages a user can bring about from the first one. *)
Inductive ui_reachable : Page -> Prop :=
| ui_start : ui_reachable first_page
| ui_step p a :
    ui_reachable p -> offered p a = true -> ui_reachable (perform p a).

(** What is left of a suspended run: events that touch neither the busy flag
    nor the cursor, storyboards of one length [n] to publish, the generic
    message as the only possible error, and the clearing of the busy flag at
    the very end. *)
Definition run_tail_ok (st : AppState) (r : list Event) : Prop :=
  exists mid n,
    r = mid ++ [SetIsLoading false]
    /\ busy_updates mid = []
    /\ cursor_updates mid = []
    /\ Forall (fun e => e = Some failure_message) (error_updates mid)
    /\ Forall (fun sb => length sb = n) (published mid)
    /\ (storyboard st = [] \/ length (storyboard st) = n).

(** The invariant of the page. *)
Definition page_ok (p : Page) : Prop :=
  0 <= currentSceneIndex (page_state p)
    <= Z.max 0 (Z.of_nat (length (storyboard (page_state p))) - 1)
  /\ (error (page_state p) = None \/ error (page_state p) = Some failure_message)
  /\ match in_flight p with
     | [] => isLoading (page_state p) = false
     | [r] => isLoading (page_state p) = true /\ run_tail_ok (page_state p) r
     | _ :: _ :: _ => False
     end.

(** A session: the actions of a list done one after the other, each of them
    offered by the page it is done on. *)
Fixpoint all_offered (p : Page) (actions : list Action) : bool :=
  match actions with
  | [] => true
  | a :: actions' => offered p a && all_offered (perform p a) actions'
  end.

Definition session (actions : list Action) : Page :=
  fold_left perform actions first_page.

(** ** More observations of a run *)

(** What a trace writes to the console. *)
Definition console_errors (t : list Event) : list Exn :=
  omap (fun ev => match ev with ConsoleError e => Some e | _ => None end) t.

Definition prompt_of (scene : Scene) : option JsString :=
  match imagePrompt scene with
  | Normal prompt => Some prompt
  | Throw _ => None
  end.

(** The exception the inner [catch] of turn [j] receives, if any. *)
Definition image_failure (ai : Services) (j : nat) (scene : Scene) : option Exn :=
  match imagePrompt scene with
  | Normal prompt =>
      match image_result ai j prompt with
      | Normal _ => None
      | Throw e => Some e
      end
  | Throw _ => None
  end.

(** The events of turn [j] of the loop. *)
Definition turn (ai : Services) (initial : list Scene) (j : nat) : list Event :=
  match initial !! j with
  | Some scene =>
      match imagePrompt scene with
      | Normal prompt =>
          CallGenerateImages prompt :: catch_log (image_result ai j prompt)
            ++ [SetStoryboard (stage ai initial (S j))]
      | Throw _ => []
      end
  | None => []
  end.

(** The reply is the empty array. *)
Definition empty_reply : Services :=
  {| generateContent := replies (JArray []);
     generateImages := fun _ _ => one_image "QUJD" |}.

(** Three scenes; the narration of the second is an object with a [toString]
    property of its own, which no template literal can render. *)
Definition unbuildable_second : Services :=
  {| generateContent :=
       replies (JArray [scene_item "1" "a";
                        JObject [(js "narration", JObject [(js "toString", JNull)])];
                        scene_item "3" "c"]);
     generateImages := fun _ _ => one_image "QUJD" |}.

Definition unbuildable_initial : list Scene :=
  [text_scene "a";
   {| narration := JObject [(js "toString", JNull)]; imageUrl := None;
      isLoadingImage := true |};
   text_scene "c"].

(** The user types a concept and presses the button; the text reply and the
    first image arrive; the user presses Next; the second image arrives. *)
Definition telling_a_story : list Action :=
  [TypeConcept (js "gravity"); ClickGenerate third_image_unreadable;
   Settle 0; Settle 0; Settle 0; ClickNext; Settle 0; Settle 0].

(** * Properties *)

(** ** Blank concepts *)

Lemma forallb_trim_start s :
  forallb is_white_space (trim_start s) = forallb is_white_space s.
Proof.
  induction s as [|c s IH]; simpl; [reflexivity|].
  destruct (is_white_space c) eqn:Hc; simpl; [exact IH|].
  rewrite Hc. reflexivity.
Qed.

Lemma trim_start_nil s :
  trim_start s = [] <-> forallb is_white_space s = true.
Proof.
  induction s as [|c s IH]; simpl; [tauto|].
  destruct (is_white_space c); simpl; [exact IH|].
  split; discriminate.
Qed.

Lemma forallb_rev {A} (p : A -> bool) l : forallb p (rev l) = forallb p l.
Proof.
  induction l as [|x l IH]; simpl; [reflexivity|].
  rewrite forallb_app, IH. simpl.
  rewrite andb_true_r. apply andb_comm.
Qed.

(** The test of line 21 accepts exactly the strings made of white space. *)
Lemma is_blank_whitespace_only s : is_blank s = whitespace_only s.
Proof.
  unfold is_blank, whitespace_only, trim, trim_end.
  rewrite <- (forallb_trim_start s), <- (forallb_rev _ (trim_start s)).
  destruct (trim_start (rev (trim_start s))) as [|c r] eqn:Hr.
  - simpl. symmetry. apply trim_start_nil. exact Hr.
  - destruct (forallb is_white_space (rev (trim_start s))) eqn:Hall.
    + apply trim_start_nil in Hall. congruence.
    + destruct (rev (c :: r)) eqn:Hrev; [|reflexivity].
      apply (f_equal (@length N)) in Hrev.
      rewrite length_rev in Hrev. discriminate.
Qed.

(** ** Unfolding the handler *)

(** One turn of the loop. *)
Lemma image_loop_cons ai i scene pending cur :
  image_loop ai i (scene :: pending) cur =
  match imagePrompt scene with
  | Throw e => ([], Throw e)
  | Normal prompt =>
      let r := image_result ai i prompt in
      let cur' := merge_result i r cur in
      (CallGenerateImages prompt :: catch_log r ++ SetStoryboard cur'
         :: trace (image_loop ai (S i) pending cur'),
       completion (image_loop ai (S i) pending cur'))
  end.
Proof.
  simpl. destruct (imagePrompt scene) as [prompt|e]; simpl; [|reflexivity].
  unfold image_result.
  destruct (generateImages ai i prompt) as [resp|e]; simpl.
  - destruct (image_data_url resp) as [url|e]; simpl;
      destruct (image_loop ai (S i) pending _); reflexivity.
  - destruct (image_loop ai (S i) pending _); reflexivity.
Qed.

Lemma generate_unfold ai c :
  generate ai c =
  match narration_phase ai c with
  | Throw e => ([CallGenerateContent (narrationPrompt c)], Throw e)
  | Normal initial =>
      (CallGenerateContent (narrationPrompt c) :: SetStoryboard initial
         :: trace (image_loop ai 0 initial initial),
       completion (image_loop ai 0 initial initial))
  end.
Proof.
  unfold generate, narration_phase.
  destruct (generateContent ai (narrationPrompt c)) as [resp|e]; simpl; [|reflexivity].
  destruct (JSON_parse_text resp) as [v|e]; simpl; [|reflexivity].
  destruct (initialStoryboard v) as [sb|e]; simpl; [|reflexivity].
  destruct (image_loop ai 0 sb sb); reflexivity.
Qed.

Lemma generateStoryboard_blank ai st :
  is_blank (concept st) = true ->
  generateStoryboard ai st = ([SetError (Some validation_message)], Normal tt).
Proof. unfold generateStoryboard. intros ->. reflexivity. Qed.

Lemma generateStoryboard_trace ai st :
  is_blank (concept st) = false ->
  trace (generateStoryboard ai st) =
  prologue ++ trace (generate ai (concept st))
           ++ epilogue (completion (generate ai (concept st))).
Proof.
  unfold generateStoryboard. intros ->.
  destruct (generate ai (concept st)) as [t [[]|e]]; simpl;
    rewrite <- ?app_assoc; reflexivity.
Qed.


(** ** What a trace leaves in the state *)

(** A cell holds the last value a trace stored in it, or what it held
    before when the trace has no update for it. *)
Ltac last_update t :=
  let ev := fresh "ev" in
  let IH := fresh "IH" in
  let st := fresh "st" in
  induction t as [|ev t IH]; intros st; [reflexivity|];
  change (apply_trace st (ev :: t)) with (apply_trace (apply_event st ev) t);
  rewrite IH; destruct ev; simpl; try reflexivity;
  rewrite last_cons;
  match goal with |- context [last ?updates] => destruct (last updates) end;
  reflexivity.

Lemma storyboard_apply_trace t : forall st,
  storyboard (apply_trace st t) = default (storyboard st) (last (published t)).
Proof. last_update t. Qed.

Lemma error_apply_trace t : forall st,
  error (apply_trace st t) = default (error st) (last (error_updates t)).
Proof. last_update t. Qed.

Lemma isLoading_apply_trace t : forall st,
  isLoading (apply_trace st t) = default (isLoading st) (last (busy_updates t)).
Proof. last_update t. Qed.

Lemma currentSceneIndex_apply_trace t : forall st,
  currentSceneIndex (apply_trace st t)
  = default (currentSceneIndex st) (last (cursor_updates t)).
Proof. last_update t. Qed.

Lemma concept_apply_trace t : forall st,
  concept (apply_trace st t) = concept st.
Proof.
  induction t as [|ev t IH]; intros st; [reflexivity|].
  change (apply_trace st (ev :: t)) with (apply_trace (apply_event st ev) t).
  rewrite IH. destruct ev; reflexivity.
Qed.

(** ** The imaging loop *)

Lemma image_loop_completion ai pending : forall i cur,
  completion (image_loop ai i pending cur) = prompts_completion pending.
Proof.
  induction pending as [|scene pending IH]; intros i cur; [reflexivity|].
  rewrite image_loop_cons. simpl.
  destruct (imagePrompt scene); simpl; [apply IH|reflexivity].
Qed.

Lemma image_loop_events ai pending : forall i cur,
  Forall (fun ev => loop_event ev = true) (trace (image_loop ai i pending cur)).
Proof.
  induction pending as [|scene pending IH]; intros i cur; [constructor|].
  rewrite image_loop_cons.
  destruct (imagePrompt scene) as [prompt|e]; simpl; [|constructor].
  constructor; [reflexivity|].
  apply Forall_app. split.
  - destruct (image_result ai i prompt); repeat constructor.
  - constructor; [reflexivity|]. apply IH.
Qed.

Lemma loop_events_updates t :
  Forall (fun ev => loop_event ev = true) t ->
  error_updates t = [] /\ busy_updates t = [] /\ cursor_updates t = [].
Proof.
  induction 1 as [|ev t Hev _ IH]; [auto|].
  destruct ev; try discriminate; exact IH.
Qed.

Lemma image_loop_requests ai pending : forall i cur,
  length (requests (trace (image_loop ai i pending cur))) = rendered pending.
Proof.
  induction pending as [|scene pending IH]; intros i cur; [reflexivity|].
  rewrite image_loop_cons. simpl.
  destruct (imagePrompt scene) as [prompt|e]; simpl; [|reflexivity].
  f_equal. unfold requests. rewrite omap_app. simpl.
  rewrite length_app.
  replace (length (omap _ (catch_log (image_result ai i prompt)))) with 0%nat
    by (destruct (image_result ai i prompt); reflexivity).
  apply IH.
Qed.

Lemma stage_lookup ai initial k j :
  stage ai initial k !! j
  = (fun s => if Nat.ltb j k then settle ai j s else s) <$> initial !! j.
Proof. unfold stage. apply list_lookup_imap. Qed.

Lemma length_stage ai initial k : length (stage ai initial k) = length initial.
Proof. unfold stage. apply length_imap. Qed.

Lemma stage_0 ai initial : stage ai initial 0 = initial.
Proof.
  apply list_eq. intros j. rewrite stage_lookup.
  destruct (initial !! j); reflexivity.
Qed.

Lemma narration_stage ai initial k :
  narration <$> stage ai initial k = narration <$> initial.
Proof.
  apply list_eq. intros j. rewrite !list_lookup_fmap, stage_lookup.
  destruct (initial !! j); simpl; [|reflexivity].
  destruct (Nat.ltb j k); reflexivity.
Qed.

Lemma merge_stage ai initial i scene prompt :
  initial !! i = Some scene ->
  imagePrompt scene = Normal prompt ->
  merge_result i (image_result ai i prompt) (stage ai initial i)
  = stage ai initial (S i).
Proof.
  intros Hi Hp. apply list_eq. intros j.
  assert (Hurl : settled_url ai i scene
                 = match image_result ai i prompt with
                   | Normal url => Some url | Throw _ => None end).
  { unfold settled_url. rewrite Hp. reflexivity. }
  unfold merge_result, with_image, without_image.
  destruct (image_result ai i prompt) as [url|e];
    rewrite list_lookup_imap, !stage_lookup;
    destruct (initial !! j) as [s|] eqn:Hj; simpl; try reflexivity;
    f_equal;
    destruct (Nat.eqb_spec j i) as [->|Hne].
  - rewrite Nat.ltb_irrefl.
    replace (Nat.ltb i (S i)) with true by (symmetry; apply Nat.ltb_lt; lia).
    unfold settle. rewrite Hi in Hj. injection Hj as <-.
    rewrite Hurl. reflexivity.
  - destruct (Nat.ltb_spec j i), (Nat.ltb_spec j (S i)); try lia; reflexivity.
  - rewrite Nat.ltb_irrefl.
    replace (Nat.ltb i (S i)) with true by (symmetry; apply Nat.ltb_lt; lia).
    unfold settle. rewrite Hi in Hj. injection Hj as <-.
    rewrite Hurl. reflexivity.
  - destruct (Nat.ltb_spec j i), (Nat.ltb_spec j (S i)); try lia; reflexivity.
Qed.

(** The snapshots the loop publishes are the successive stages. *)
Lemma image_loop_published ai initial pending : forall i,
  drop i initial = pending ->
  published (trace (image_loop ai i pending (stage ai initial i)))
  = stage ai initial <$> seq (S i) (rendered pending).
Proof.
  induction pending as [|scene pending IH]; intros i Hdrop; [reflexivity|].
  assert (Hi : initial !! i = Some scene).
  { rewrite <- (Nat.add_0_r i), <- lookup_drop, Hdrop. reflexivity. }
  assert (Hrest : drop (S i) initial = pending).
  { rewrite (drop_S _ _ _ Hi) in Hdrop. congruence. }
  rewrite image_loop_cons. simpl.
  destruct (imagePrompt scene) as [prompt|e] eqn:Hp; [|reflexivity].
  simpl. rewrite (merge_stage ai initial i scene prompt Hi Hp).
  unfold published. rewrite omap_app. simpl.
  replace (omap _ (catch_log (image_result ai i prompt))) with (@nil (list Scene))
    by (destruct (image_result ai i prompt); reflexivity).
  simpl. f_equal. apply IH. exact Hrest.
Qed.

(** ** The shape of a run *)

Lemma generate_trace_failed ai c e :
  narration_phase ai c = Throw e ->
  generate ai c = ([CallGenerateContent (narrationPrompt c)], Throw e).
Proof. intros H. rewrite generate_unfold, H. reflexivity. Qed.

Lemma generate_trace_installed ai c initial :
  narration_phase ai c = Normal initial ->
  generate ai c =
  (CallGenerateContent (narrationPrompt c) :: SetStoryboard initial
     :: trace (image_loop ai 0 initial initial),
   prompts_completion initial).
Proof.
  intros H. rewrite generate_unfold, H, image_loop_completion. reflexivity.
Qed.

Lemma generate_updates ai c :
  error_updates (trace (generate ai c)) = []
  /\ busy_updates (trace (generate ai c)) = []
  /\ cursor_updates (trace (generate ai c)) = [].
Proof.
  destruct (narration_phase ai c) as [initial|e] eqn:H.
  - rewrite (generate_trace_installed _ _ _ H). simpl.
    apply loop_events_updates, image_loop_events.
  - rewrite (generate_trace_failed _ _ _ H). auto.
Qed.

Lemma generate_published ai c :
  published (trace (generate ai c)) =
  match narration_phase ai c with
  | Normal initial => stage ai initial <$> seq 0 (S (rendered initial))
  | Throw _ => []
  end.
Proof.
  destruct (narration_phase ai c) as [initial|e] eqn:H.
  - rewrite (generate_trace_installed _ _ _ H). simpl.
    rewrite stage_0. f_equal.
    rewrite <- (stage_0 ai initial) at 2.
    apply image_loop_published. reflexivity.
  - rewrite (generate_trace_failed _ _ _ H). reflexivity.
Qed.

Lemma epilogue_updates {A} (r : Completion A) :
  published (epilogue r) = []
  /\ requests (epilogue r) = []
  /\ cursor_updates (epilogue r) = []
  /\ busy_updates (epilogue r) = [false]
  /\ error_updates (epilogue r)
     = match r with Normal _ => [] | Throw _ => [Some failure_message] end.
Proof. destruct r; repeat split; reflexivity. Qed.

Lemma run_published ai st :
  is_blank (concept st) = false ->
  published (trace (generateStoryboard ai st))
  = [] :: published (trace (generate ai (concept st))).
Proof.
  intros Hc. rewrite (generateStoryboard_trace _ _ Hc).
  unfold published at 1. rewrite !omap_app.
  fold (published (epilogue (completion (generate ai (concept st))))).
  destruct (epilogue_updates (completion (generate ai (concept st)))) as [-> _].
  rewrite app_nil_r. reflexivity.
Qed.

Lemma run_error_updates ai st :
  is_blank (concept st) = false ->
  error_updates (trace (generateStoryboard ai st))
  = None :: match completion (generate ai (concept st)) with
            | Normal _ => []
            | Throw _ => [Some failure_message]
            end.
Proof.
  intros Hc. rewrite (generateStoryboard_trace _ _ Hc).
  unfold error_updates at 1. rewrite !omap_app.
  fold (error_updates (trace (generate ai (concept st)))).
  fold (error_updates (epilogue (completion (generate ai (concept st))))).
  destruct (generate_updates ai (concept st)) as [-> _].
  destruct (epilogue_updates (completion (generate ai (concept st))))
    as (_ & _ & _ & _ & ->).
  reflexivity.
Qed.

Lemma run_busy_updates ai st :
  is_blank (concept st) = false ->
  busy_updates (trace (generateStoryboard ai st)) = [true; false].
Proof.
  intros Hc. rewrite (generateStoryboard_trace _ _ Hc).
  unfold busy_updates at 1. rewrite !omap_app.
  fold (busy_updates (trace (generate ai (concept st)))).
  fold (busy_updates (epilogue (completion (generate ai (concept st))))).
  destruct (generate_updates ai (concept st)) as (_ & -> & _).
  destruct (epilogue_updates (completion (generate ai (concept st))))
    as (_ & _ & _ & -> & _).
  reflexivity.
Qed.

Lemma run_cursor_updates ai st :
  is_blank (concept st) = false ->
  cursor_updates (trace (generateStoryboard ai st)) = [0].
Proof.
  intros Hc. rewrite (generateStoryboard_trace _ _ Hc).
  unfold cursor_updates at 1. rewrite !omap_app.
  fold (cursor_updates (trace (generate ai (concept st)))).
  fold (cursor_updates (epilogue (completion (generate ai (concept st))))).
  destruct (generate_updates ai (concept st)) as (_ & _ & ->).
  destruct (epilogue_updates (completion (generate ai (concept st))))
    as (_ & _ & -> & _).
  reflexivity.
Qed.

(** The state a run that passed the blank test ends in. *)
Lemma state_after_run ai st :
  is_blank (concept st) = false ->
  isLoading (state_after ai st) = false
  /\ currentSceneIndex (state_after ai st) = 0
  /\ error (state_after ai st)
     = match completion (generate ai (concept st)) with
       | Normal _ => None
       | Throw _ => Some failure_message
       end
  /\ storyboard (state_after ai st)
     = default [] (last (published (trace (generate ai (concept st))))).
Proof.
  intros Hc. unfold state_after.
  rewrite isLoading_apply_trace, currentSceneIndex_apply_trace,
    error_apply_trace, storyboard_apply_trace.
  rewrite (run_busy_updates _ _ Hc), (run_cursor_updates _ _ Hc),
    (run_error_updates _ _ Hc), (run_published _ _ Hc).
  repeat split.
  - destruct (completion (generate ai (concept st))); reflexivity.
  - rewrite last_cons. destruct (last (published _)); reflexivity.
Qed.

(** * The specification, property by property *)

(** ** Validation *)

(** C8.  For every blank concept (the empty string or white space only),
    [generateStoryboard] does one thing, at once: it reports the validation
    message through [setError].  It sends no request to either service, never
    sets the busy flag, and publishes no storyboard and no cursor, so the
    state it leaves is the state it found but for that message. *)
Theorem blank_concept_rejected (ai : Services) (st : AppState) :
  whitespace_only (concept st) = true ->
  generateStoryboard ai st = ([SetError (Some validation_message)], Normal tt)
  /\ requests (trace (generateStoryboard ai st)) = []
  /\ busy_updates (trace (generateStoryboard ai st)) = []
  /\ published (trace (generateStoryboard ai st)) = []
  /\ cursor_updates (trace (generateStoryboard ai st)) = []
  /\ state_after ai st = set_error (Some validation_message) st
  /\ isLoading (state_after ai st) = isLoading st
  /\ storyboard (state_after ai st) = storyboard st
  /\ currentSceneIndex (state_after ai st) = currentSceneIndex st.
Proof.
  intros Hblank. rewrite <- is_blank_whitespace_only in Hblank.
  unfold state_after.
  rewrite (generateStoryboard_blank ai st Hblank).
  repeat split.
Qed.

(** ** Navigation *)

Lemma navigate_in_range st op :
  cursor_in_range st -> cursor_in_range (navigate st op).
Proof.
  unfold cursor_in_range. destruct op; simpl; lia.
Qed.

Lemma navigate_storyboard st op : storyboard (navigate st op) = storyboard st.
Proof. destruct op; reflexivity. Qed.

(** A run only ever sets the cursor to 0. *)
Lemma run_cursor_zero ai st0 i :
  SetCurrentSceneIndex i ∈ trace (generateStoryboard ai st0) -> i = 0.
Proof.
  intros Hin.
  assert (Hi : i ∈ cursor_updates (trace (generateStoryboard ai st0))).
  { unfold cursor_updates. apply list_elem_of_omap.
    exists (SetCurrentSceneIndex i). split; [exact Hin|reflexivity]. }
  destruct (is_blank (concept st0)) eqn:Hc.
  - rewrite (generateStoryboard_blank _ _ Hc) in Hi. simpl in Hi.
    inversion Hi.
  - rewrite (run_cursor_updates _ _ Hc) in Hi.
    apply list_elem_of_singleton in Hi. exact Hi.
Qed.

(** The cursor never goes below -1. *)
Lemma reachable_cursor st : reachable st -> -1 <= currentSceneIndex st.
Proof.
  induction 1 as [|st c _ IH|st _ IH|st _ IH|st ai st0 ev _ IH Hev]; simpl;
    try lia.
  destruct ev; simpl; try exact IH.
  apply run_cursor_zero in Hev. lia.
Qed.

(** C7.  Over a storyboard of length > 0, a cursor inside [0, length-1]
    stays there under every sequence of [prev()] and [next()]; [prev()] at
    index 0 and [next()] at index length-1 return the state unchanged (the
    handlers are total, there is no error case). *)
Theorem cursor_stays_in_range (st : AppState) (ops : list NavOp) :
  (0 < length (storyboard st))%nat ->
  cursor_in_range st ->
  cursor_in_range (fold_left navigate ops st)
  /\ storyboard (fold_left navigate ops st) = storyboard st
  /\ (currentSceneIndex st = 0 -> handlePrev st = st)
  /\ (currentSceneIndex st = Z.of_nat (length (storyboard st)) - 1 ->
      handleNext st = st).
Proof.
  intros _ Hin. split; [|split; [|split]].
  - revert st Hin. induction ops as [|op ops IH]; intros st Hin; [exact Hin|].
    simpl. apply IH, navigate_in_range, Hin.
  - revert st Hin. induction ops as [|op ops IH]; intros st Hin; [reflexivity|].
    simpl. rewrite IH by (apply navigate_in_range, Hin).
    apply navigate_storyboard.
  - intros H0. destruct st; simpl in *. subst. reflexivity.
  - intros Hlast. unfold handleNext.
    replace (Z.min _ _) with (currentSceneIndex st) by lia.
    destruct st; reflexivity.
Qed.

(** C9.  Over the empty storyboard [next()] sets the cursor to -1: the
    increment is clamped to length - 1 = -1 instead of being dropped.  This
    holds in every state the component can be in, so the cursor is sure to be
    nonnegative only while the storyboard has a scene. *)
Theorem next_on_empty_storyboard (st : AppState) :
  reachable st ->
  storyboard st = [] ->
  currentSceneIndex (handleNext st) = -1
  /\ storyboard (handleNext st) = []
  /\ ~ cursor_in_range (handleNext st).
Proof.
  intros Hreach Hsb. apply reachable_cursor in Hreach.
  unfold cursor_in_range, handleNext. simpl.
  rewrite Hsb. simpl. repeat split; lia.
Qed.

(** ** The busy flag and the error message during a run *)

Lemma busy_updates_take t n : busy_updates t = [] -> busy_updates (take n t) = [].
Proof.
  intros H. rewrite <- (take_drop n t) in H.
  unfold busy_updates in H. rewrite omap_app in H.
  apply app_eq_nil in H. apply H.
Qed.

Lemma error_updates_take t n : error_updates t = [] -> error_updates (take n t) = [].
Proof.
  intros H. rewrite <- (take_drop n t) in H.
  unfold error_updates in H. rewrite omap_app in H.
  apply app_eq_nil in H. apply H.
Qed.

(** A run that passed the blank test sets the busy flag first, clears it
    last, and does not touch it in between. *)
Lemma run_brackets ai st :
  is_blank (concept st) = false ->
  exists mid,
    trace (generateStoryboard ai st)
    = SetIsLoading true :: mid ++ [SetIsLoading false]
    /\ busy_updates mid = [].
Proof.
  intros Hc. rewrite (generateStoryboard_trace _ _ Hc).
  exists ([SetError None; SetStoryboard []; SetCurrentSceneIndex 0]
          ++ trace (generate ai (concept st))
          ++ match completion (generate ai (concept st)) with
             | Normal _ => []
             | Throw e => [ConsoleError e; SetError (Some failure_message)]
             end).
  split.
  - unfold prologue, epilogue. simpl. rewrite <- !app_assoc. reflexivity.
  - unfold busy_updates. rewrite !omap_app.
    fold (busy_updates (trace (generate ai (concept st)))).
    destruct (generate_updates ai (concept st)) as (_ & -> & _).
    destruct (completion (generate ai (concept st))); reflexivity.
Qed.

(** C6.  Starting from an idle state, the busy flag is true exactly for the
    span of a run started with a non-blank concept.  Times are the prefixes
    of the run's trace: the flag is false before the first event, the first
    event sets it, it is true after every later event but the last, and the
    last event, reached on the failure path as on the normal one, clears it.
    A run with a blank concept leaves it false throughout. *)
Theorem busy_exactly_during_run (ai : Services) (st : AppState) :
  isLoading st = false ->
  let t := trace (generateStoryboard ai st) in
  (is_blank (concept st) = true ->
   forall k, isLoading (apply_trace st (take k t)) = false)
  /\ (is_blank (concept st) = false ->
      head t = Some (SetIsLoading true)
      /\ last t = Some (SetIsLoading false)
      /\ isLoading (apply_trace st (take 0 t)) = false
      /\ (forall k, (0 < k < length t)%nat ->
          isLoading (apply_trace st (take k t)) = true)
      /\ isLoading (apply_trace st t) = false).
Proof.
  intros Hidle t. split; intros Hc.
  - intros k. subst t. rewrite (generateStoryboard_blank ai st Hc).
    destruct k as [|k]; simpl; [exact Hidle|].
    rewrite take_nil. exact Hidle.
  - destruct (run_brackets ai st Hc) as (mid & Ht & Hmid).
    subst t. rewrite Ht. repeat split.
    + rewrite last_cons, last_snoc. reflexivity.
    + exact Hidle.
    + intros k Hk. simpl in Hk. rewrite length_app in Hk. simpl in Hk.
      destruct k as [|k]; [lia|]. simpl.
      fold (apply_trace (set_isLoading true st) (take k (mid ++ [SetIsLoading false]))).
      rewrite take_app_le by lia.
      rewrite isLoading_apply_trace, (busy_updates_take _ _ Hmid). reflexivity.
    + rewrite isLoading_apply_trace.
      change (busy_updates (SetIsLoading true :: mid ++ [SetIsLoading false]))
        with (true :: busy_updates (mid ++ [SetIsLoading false])).
      unfold busy_updates. rewrite omap_app.
      fold (busy_updates mid). rewrite Hmid. reflexivity.
Qed.

(** C10.  In a run with a non-blank concept [setError(null)] is the second
    thing done, and whenever a request goes out to either service the error
    state is absent, whatever message the state held when the run began. *)
Theorem error_cleared_before_requests (ai : Services) (st : AppState)
    (k : nat) (ev : Event) :
  is_blank (concept st) = false ->
  trace (generateStoryboard ai st) !! k = Some ev ->
  is_request ev = true ->
  trace (generateStoryboard ai st) !! 1%nat = Some (SetError None)
  /\ (1 < k)%nat
  /\ error (apply_trace st (take k (trace (generateStoryboard ai st)))) = None.
Proof.
  intros Hc Hk Hreq.
  rewrite (generateStoryboard_trace _ _ Hc) in *.
  set (core := trace (generate ai (concept st))) in *.
  set (epi := epilogue (completion (generate ai (concept st)))) in *.
  split; [reflexivity|].
  destruct (decide (k < 4)%nat) as [Hlt|Hge].
  { destruct k as [|[|[|[|k]]]]; simpl in Hk; try lia;
      injection Hk as <-; discriminate. }
  split; [lia|].
  rewrite lookup_app_r in Hk by (simpl; lia).
  change (length prologue) with 4%nat in Hk.
  destruct (decide (k - 4 < length core)%nat) as [Hcore|Hepi].
  - rewrite take_app_ge by (simpl; lia).
    change (length prologue) with 4%nat.
    rewrite take_app_le by lia.
    rewrite error_apply_trace.
    unfold error_updates. rewrite omap_app.
    fold (error_updates (take (k - 4) core)).
    rewrite (error_updates_take core).
    + reflexivity.
    + apply generate_updates.
  - rewrite lookup_app_r in Hk by lia.
    exfalso. subst epi.
    destruct (completion (generate ai (concept st)));
      destruct (k - 4 - length core)%nat as [|[|[|j]]]; simpl in Hk;
      try discriminate; injection Hk as <-; discriminate.
Qed.

(** ** The fatal path *)

(** The narration phase throws exactly when the call rejects, the text is no
    JSON, or the callback of [map] cannot be applied all along the parsed
    value. *)
Lemma narration_phase_throws ai c :
  throws (narration_phase ai c) = true <->
  (exists e, generateContent ai (narrationPrompt c) = Throw e)
  \/ (exists resp, generateContent ai (narrationPrompt c) = Normal resp
                   /\ text_as_json resp = None)
  \/ (exists resp v, generateContent ai (narrationPrompt c) = Normal resp
                     /\ text_as_json resp = Some v
                     /\ throws (initialStoryboard v) = true).
Proof.
  unfold narration_phase, JSON_parse_text.
  destruct (generateContent ai (narrationPrompt c)) as [resp|e]; simpl.
  - destruct (text_as_json resp) as [v|] eqn:Htext; simpl.
    + split.
      * intros H. right. right. exists resp, v. auto.
      * intros [[e He]|[(r & Hr & Hn)|(r & v' & Hr & Hv & Ht)]]; congruence.
    + split; [|reflexivity].
      intros _. right. left. exists resp. auto.
  - split; [|reflexivity]. intros _. left. exists e. reflexivity.
Qed.

(** The fatal path: nothing but the empty storyboard is published, and the
    run ends with the generic message and the busy flag cleared. *)
Lemma fatal_path ai st :
  is_blank (concept st) = false ->
  throws (narration_phase ai (concept st)) = true ->
  published (trace (generateStoryboard ai st)) = [[]]
  /\ error (state_after ai st) = Some failure_message.
Proof.
  intros Hc Hthrow.
  destruct (narration_phase ai (concept st)) as [initial|e] eqn:Hphase;
    [discriminate|].
  destruct (state_after_run ai st Hc) as (_ & _ & Herr & _).
  rewrite (generate_trace_failed _ _ _ Hphase) in Herr.
  split; [|exact Herr].
  rewrite (run_published _ _ Hc), (generate_trace_failed _ _ _ Hphase).
  reflexivity.
Qed.

(** ** What the narration phase accepts *)

Lemma get_narration_field item :
  get_narration item
  = if is_nullish item then Throw TypeError else Normal (narration_field item).
Proof. destruct item; reflexivity. Qed.

Lemma map_to_scene items :
  map_throwing to_scene items
  = if forallb (fun item => negb (is_nullish item)) items
    then Normal ((fun item => {| narration := narration_field item;
                                 imageUrl := None;
                                 isLoadingImage := true |}) <$> items)
    else Throw TypeError.
Proof.
  induction items as [|item items IH]; [reflexivity|].
  simpl. unfold to_scene at 1. rewrite get_narration_field.
  destruct (is_nullish item); simpl; [reflexivity|].
  rewrite IH. destruct (forallb _ items); reflexivity.
Qed.

Lemma initialStoryboard_accepted v :
  initialStoryboard v
  = if accepted v
    then Normal ((fun item => {| narration := narration_field item;
                                 imageUrl := None;
                                 isLoadingImage := true |})
                 <$> match v with JArray items => items | _ => [] end)
    else Throw TypeError.
Proof. destruct v; try reflexivity. simpl. apply map_to_scene. Qed.

Lemma text_rejected_throws ai c :
  text_rejected ai c <-> throws (narration_phase ai c) = true.
Proof.
  unfold text_rejected, narration_phase, JSON_parse_text.
  destruct (generateContent ai (narrationPrompt c)) as [resp|e]; simpl;
    [|tauto].
  destruct (text_as_json resp) as [v|]; simpl; [|tauto].
  rewrite initialStoryboard_accepted.
  destruct (accepted v); simpl; split; congruence.
Qed.

(** C5, as the code has it.  No storyboard is published during a run (its
    only [setStoryboard] is the clearing one of line 27) exactly when the
    text-generation call fails or what it returns is turned down: text that
    is not JSON, a parsed value that is not an array, an array with a
    [null] element.  The storyboard is then empty from that third event on,
    no image is requested, and the run ends with the generic error message
    set and the busy flag false.  Data that is malformed only in the fields
    of its elements is not turned down. *)
Theorem text_failure_is_fatal (ai : Services) (st : AppState) :
  is_blank (concept st) = false ->
  (text_rejected ai (concept st) <->
   published (trace (generateStoryboard ai st)) = [[]])
  /\ (text_rejected ai (concept st) ->
      (forall k, (3 <= k)%nat ->
         storyboard (apply_trace st (take k (trace (generateStoryboard ai st))))
         = [])
      /\ requests (trace (generateStoryboard ai st))
         = [CallGenerateContent (narrationPrompt (concept st))]
      /\ storyboard (state_after ai st) = []
      /\ error (state_after ai st) = Some failure_message
      /\ isLoading (state_after ai st) = false).
Proof.
  intros Hc. rewrite text_rejected_throws.
  destruct (narration_phase ai (concept st)) as [initial|e] eqn:Hphase.
  - split; [|discriminate].
    split; [discriminate|].
    rewrite (run_published _ _ Hc), generate_published, Hphase.
    discriminate.
  - destruct (state_after_run ai st Hc) as (Hbusy & _ & Herr & Hsb).
    rewrite (generate_trace_failed _ _ _ Hphase) in Herr, Hsb.
    assert (Htrace : trace (generateStoryboard ai st)
                     = prologue
                       ++ [CallGenerateContent (narrationPrompt (concept st))]
                       ++ epilogue (@Throw unit e)).
    { rewrite (generateStoryboard_trace _ _ Hc),
        (generate_trace_failed _ _ _ Hphase).
      reflexivity. }
    assert (Hpub : published (trace (generateStoryboard ai st)) = [[]]).
    { rewrite Htrace. reflexivity. }
    split; [split; [intros _; exact Hpub|reflexivity]|].
    intros _. repeat split; try assumption.
    + intros k Hk. rewrite Htrace.
      do 3 (destruct k as [|k]; [lia|]).
      do 5 (destruct k as [|k]; [reflexivity|]).
      destruct k; reflexivity.
    + rewrite Htrace. reflexivity.
Qed.

Lemma initialStoryboard_fresh v initial :
  initialStoryboard v = Normal initial -> Forall fresh initial.
Proof.
  rewrite initialStoryboard_accepted.
  destruct (accepted v); [|discriminate].
  intros [= <-]. apply Forall_fmap, Forall_true. intros item. split; reflexivity.
Qed.

Lemma narration_phase_fresh ai c initial :
  narration_phase ai c = Normal initial -> Forall fresh initial.
Proof.
  unfold narration_phase.
  destruct (generateContent ai (narrationPrompt c)) as [resp|e]; [|discriminate].
  simpl. destruct (JSON_parse_text resp) as [v|e]; [|discriminate].
  simpl. apply initialStoryboard_fresh.
Qed.

Lemma narration_phase_parsed ai c resp v :
  generateContent ai (narrationPrompt c) = Normal resp ->
  text_as_json resp = Some v ->
  narration_phase ai c = initialStoryboard v.
Proof.
  intros Hresp Htext. unfold narration_phase, JSON_parse_text.
  rewrite Hresp. simpl. rewrite Htext. reflexivity.
Qed.

(** ** Turns of the loop *)

Lemma rendered_lookup pending : forall k,
  (k < rendered pending)%nat ->
  exists scene prompt,
    pending !! k = Some scene /\ imagePrompt scene = Normal prompt.
Proof.
  induction pending as [|s pending IH]; intros k Hk; simpl in Hk; [lia|].
  destruct (imagePrompt s) as [prompt|e] eqn:Hp; [|lia].
  destruct k as [|k].
  - exists s, prompt. split; [reflexivity|exact Hp].
  - apply IH. lia.
Qed.

Lemma rendered_all pending :
  Forall renderable pending ->
  rendered pending = length pending /\ prompts_completion pending = Normal tt.
Proof.
  induction 1 as [|s pending [prompt Hp] _ IH]; [split; reflexivity|].
  simpl. rewrite Hp. destruct IH as [-> ->]. split; reflexivity.
Qed.

Lemma prompts_completion_throws pending :
  throws (prompts_completion pending)
  = negb (Nat.eqb (rendered pending) (length pending)).
Proof.
  induction pending as [|s pending IH]; [reflexivity|].
  simpl. destruct (imagePrompt s); simpl; [exact IH|reflexivity].
Qed.

Lemma lookup_stages ai initial m k snap :
  (stage ai initial <$> seq 0 (S m)) !! k = Some snap ->
  (k <= m)%nat /\ snap = stage ai initial k.
Proof.
  rewrite list_lookup_fmap.
  destruct (seq 0 (S m) !! k) as [k'|] eqn:Hk; [|discriminate].
  apply lookup_seq in Hk as [-> Hlt]. simpl.
  intros [= <-]. split; [lia|reflexivity].
Qed.

(** A run that installs a storyboard publishes the empty storyboard, then
    the stages 0, 1, ... up to the number of turns of the loop. *)
Lemma run_published_installed ai st initial :
  is_blank (concept st) = false ->
  narration_phase ai (concept st) = Normal initial ->
  published (trace (generateStoryboard ai st))
  = [] :: (stage ai initial <$> seq 0 (S (rendered initial))).
Proof.
  intros Hc Hphase.
  rewrite (run_published _ _ Hc), generate_published, Hphase. reflexivity.
Qed.

(** ** Progressive publication *)


(** ** Isolation of image failures *)

(** The state a run that installs a storyboard ends in. *)
Lemma state_after_installed ai st initial :
  is_blank (concept st) = false ->
  narration_phase ai (concept st) = Normal initial ->
  storyboard (state_after ai st) = stage ai initial (rendered initial)
  /\ error (state_after ai st)
     = (if Nat.eqb (rendered initial) (length initial)
        then None else Some failure_message)
  /\ isLoading (state_after ai st) = false.
Proof.
  intros Hc Hphase.
  destruct (state_after_run ai st Hc) as (Hbusy & _ & Herr & Hsb).
  split; [|split; [|exact Hbusy]].
  - rewrite Hsb, generate_published, Hphase.
    rewrite seq_S, fmap_app.
    change (stage ai initial <$> [(0 + rendered initial)%nat])
      with [stage ai initial (rendered initial)].
    rewrite last_snoc. reflexivity.
  - rewrite Herr, (generate_trace_installed _ _ _ Hphase). simpl.
    pose proof (prompts_completion_throws initial) as Ht.
    destruct (prompts_completion initial), (Nat.eqb _ _); simpl in Ht;
      congruence.
Qed.






(** ** The installed storyboard *)

Lemma accepted_initial v :
  accepted v = true ->
  exists items,
    v = JArray items
    /\ initialStoryboard v
       = Normal ((fun item => {| narration := narration_field item;
                                 imageUrl := None;
                                 isLoadingImage := true |}) <$> items).
Proof.
  intros Hacc. rewrite initialStoryboard_accepted, Hacc.
  destruct v; try discriminate. exists items. split; reflexivity.
Qed.

Lemma conforms_item_text item :
  conforms_item item = true ->
  is_nullish item = false /\ exists text, narration_field item = JString text.
Proof.
  destruct item; try discriminate. simpl.
  destruct (own_property (js "scene") props) as [[]|]; try discriminate.
  destruct (own_property (js "narration") props) as [[]|]; try discriminate.
  intros _. split; [reflexivity|]. eexists. reflexivity.
Qed.

Lemma text_renderable s text : narration s = JString text -> renderable s.
Proof.
  intros H. unfold renderable, imagePrompt. rewrite H. simpl.
  eexists. reflexivity.
Qed.

(** A conforming reply is accepted, and all its prompts can be built. *)
Lemma conforms_accepted v :
  conforms_schema v = true ->
  accepted v = true
  /\ forall initial, initialStoryboard v = Normal initial ->
                     Forall renderable initial.
Proof.
  destruct v; try discriminate. simpl. intros Hconf.
  assert (Hitems : Forall (fun item => conforms_item item = true) items).
  { apply Forall_forall. intros item Hin.
    apply (proj1 (forallb_forall _ _) Hconf), list_elem_of_In, Hin. }
  assert (Hacc : forallb (fun item => negb (is_nullish item)) items = true).
  { apply forallb_forall. intros item Hin.
    apply list_elem_of_In in Hin.
    rewrite Forall_forall in Hitems.
    destruct (conforms_item_text item (Hitems item Hin)) as [-> _].
    reflexivity. }
  split; [exact Hacc|].
  intros initial. rewrite map_to_scene, Hacc. intros [= <-].
  apply Forall_fmap. eapply Forall_impl; [exact Hitems|].
  intros item Hitem. simpl.
  destruct (conforms_item_text item Hitem) as [_ [text Htext]].
  apply (text_renderable _ text). exact Htext.
Qed.

(** C1, as the code has it.  For every non-blank concept, a run whose
    text-generation call succeeds with a JSON array without [null] element
    installs a storyboard with exactly one scene per element of the array, in
    the array's order, the narration of each scene being the [narration]
    property of its element ([undefined] when there is none).  The length is
    the reply's, not a fixed 5, and nothing asks a narration to be non-empty.
    Every storyboard published afterwards, and the final one, has the same
    length and the same narrations in the same order. *)
Theorem storyboard_mirrors_reply (ai : Services) (st : AppState)
    (resp : GenerateContentResponse) (items : list JsValue) :
  is_blank (concept st) = false ->
  generateContent ai (narrationPrompt (concept st)) = Normal resp ->
  text_as_json resp = Some (JArray items) ->
  accepted (JArray items) = true ->
  exists initial later,
    published (trace (generateStoryboard ai st)) = [] :: initial :: later
    /\ length initial = length items
    /\ narration <$> initial = narration_field <$> items
    /\ Forall (fun snap => length snap = length initial
                           /\ narration <$> snap = narration <$> initial) later
    /\ length (storyboard (state_after ai st)) = length items
    /\ narration <$> storyboard (state_after ai st) = narration_field <$> items.
Proof.
  intros Hc Hresp Htext Hacc.
  destruct (accepted_initial _ Hacc) as (items' & [= <-] & Hinit).
  set (initial := (fun item => {| narration := narration_field item;
                                  imageUrl := None;
                                  isLoadingImage := true |}) <$> items) in *.
  assert (Hphase : narration_phase ai (concept st) = Normal initial).
  { rewrite (narration_phase_parsed _ _ _ _ Hresp Htext). exact Hinit. }
  assert (Hlen : length initial = length items) by apply length_fmap.
  assert (Hnarr : narration <$> initial = narration_field <$> items).
  { unfold initial. rewrite <- list_fmap_compose. reflexivity. }
  exists initial, (stage ai initial <$> seq 1 (rendered initial)).
  split.
  { rewrite (run_published_installed _ _ _ Hc Hphase). simpl.
    rewrite stage_0. reflexivity. }
  split; [exact Hlen|]. split; [exact Hnarr|].
  split.
  { apply Forall_fmap, Forall_true. intros k. simpl.
    split; [apply length_stage|apply narration_stage]. }
  destruct (state_after_installed ai st initial Hc Hphase) as (-> & _ & _).
  rewrite length_stage, narration_stage. split; assumption.
Qed.

(** C3, as the code has it.  A response is turned down before anything is
    installed (only the empty storyboard is published and the run ends with
    the generic error message) exactly when its text is not JSON, the parsed
    value is not an array, or an element of the array is [null].  Every
    other array is installed, whatever its length and whatever fields its
    elements have or lack; the run then ends without error message unless
    some image prompt cannot be built.  In particular every response that
    conforms to the schema is installed and ends without error message. *)
Theorem reply_acceptance (ai : Services) (st : AppState)
    (resp : GenerateContentResponse) :
  is_blank (concept st) = false ->
  generateContent ai (narrationPrompt (concept st)) = Normal resp ->
  (text_as_json resp = None ->
   published (trace (generateStoryboard ai st)) = [[]]
   /\ error (state_after ai st) = Some failure_message)
  /\ forall v, text_as_json resp = Some v ->
       (accepted v = false ->
        published (trace (generateStoryboard ai st)) = [[]]
        /\ error (state_after ai st) = Some failure_message)
       /\ (accepted v = true ->
           exists initial,
             initialStoryboard v = Normal initial
             /\ published (trace (generateStoryboard ai st)) !! 1%nat
                = Some initial
             /\ error (state_after ai st)
                = if Nat.eqb (rendered initial) (length initial)
                  then None else Some failure_message)
       /\ (conforms_schema v = true ->
           accepted v = true /\ error (state_after ai st) = None).
Proof.
  intros Hc Hresp.
  assert (Hinstalled : forall v, text_as_json resp = Some v ->
            accepted v = true ->
            exists initial,
              initialStoryboard v = Normal initial
              /\ published (trace (generateStoryboard ai st)) !! 1%nat
                 = Some initial
              /\ error (state_after ai st)
                 = if Nat.eqb (rendered initial) (length initial)
                   then None else Some failure_message).
  { intros v Htext Hacc.
    destruct (accepted_initial _ Hacc) as (items & -> & Hinit).
    eexists. split; [exact Hinit|].
    assert (Hphase := narration_phase_parsed _ _ _ _ Hresp Htext).
    rewrite Hinit in Hphase.
    rewrite (run_published_installed _ _ _ Hc Hphase).
    split; [simpl; rewrite stage_0; reflexivity|].
    apply (state_after_installed ai st _ Hc Hphase). }
  split.
  - intros Htext.
    apply (fatal_path ai st Hc).
    apply narration_phase_throws. right. left. exists resp. auto.
  - intros v Htext. split; [|split].
    + intros Hacc.
      apply (fatal_path ai st Hc).
      apply narration_phase_throws. right. right. exists resp, v.
      repeat split; try assumption.
      rewrite initialStoryboard_accepted, Hacc. reflexivity.
    + apply Hinstalled, Htext.
    + intros Hconf. destruct (conforms_accepted v Hconf) as [Hacc Hall].
      split; [exact Hacc|].
      destruct (Hinstalled v Htext Hacc) as (initial & Hinit & _ & ->).
      destruct (rendered_all initial (Hall initial Hinit)) as [-> _].
      rewrite Nat.eqb_refl. reflexivity.
Qed.

(** * Witnesses and counterexamples *)

(** Three spaces typed: the run only sets the validation message. *)
Lemma blank_concept_rejected_witness :
  whitespace_only (concept (typed "   ")) = true
  /\ state_after third_image_unreadable (typed "   ")
     = set_error (Some validation_message) (typed "   ").
Proof.
  split; [reflexivity|].
  apply (blank_concept_rejected third_image_unreadable (typed "   ")).
  reflexivity.
Defined.

(** On the last of two scenes, Next twice and Prev three times. *)
Lemma cursor_stays_in_range_witness :
  cursor_in_range on_last_scene
  /\ cursor_in_range (fold_left navigate [Next; Next; Prev; Prev; Prev] on_last_scene).
Proof.
  assert (H : cursor_in_range on_last_scene) by (unfold cursor_in_range; simpl; lia).
  split; [exact H|].
  apply (cursor_stays_in_range on_last_scene [Next; Next; Prev; Prev; Prev]);
    [simpl; lia|exact H].
Defined.

(** Next on the freshly rendered page. *)
Lemma next_on_empty_storyboard_witness :
  storyboard initial_state = []
  /\ currentSceneIndex (handleNext initial_state) = -1.
Proof.
  split; [reflexivity|].
  apply (next_on_empty_storyboard initial_state); [exact reach_initial|reflexivity].
Defined.

(** A full run of five scenes from an idle page. *)
Lemma busy_exactly_during_run_witness :
  isLoading (typed "gravity") = false
  /\ isLoading (state_after third_image_unreadable (typed "gravity")) = false.
Proof.
  split; [reflexivity|].
  apply (busy_exactly_during_run third_image_unreadable (typed "gravity"));
    reflexivity.
Defined.

(** A new run on a page that still shows the message of a failed one. *)
Lemma error_cleared_before_requests_witness :
  error after_failure = Some failure_message
  /\ trace (generateStoryboard text_service_down after_failure) !! 4%nat
     = Some (CallGenerateContent (narrationPrompt (js "gravity")))
  /\ error (apply_trace after_failure
              (take 4 (trace (generateStoryboard text_service_down after_failure))))
     = None.
Proof.
  split; [reflexivity|]. split; [reflexivity|].
  apply (error_cleared_before_requests text_service_down after_failure 4
           (CallGenerateContent (narrationPrompt (js "gravity"))));
    reflexivity.
Defined.

(** The text service rejects the call. *)
Lemma text_failure_is_fatal_witness :
  text_rejected text_service_down (concept (typed "gravity"))
  /\ published (trace (generateStoryboard text_service_down (typed "gravity")))
     = [[]]
  /\ error (state_after text_service_down (typed "gravity"))
     = Some failure_message.
Proof.
  assert (Hrejected : text_rejected text_service_down (concept (typed "gravity")))
    by exact I.
  destruct (text_failure_is_fatal text_service_down (typed "gravity") eq_refl)
    as [Hiff Hfatal].
  split; [exact Hrejected|].
  split; [apply Hiff, Hrejected|apply Hfatal, Hrejected].
Defined.

(** C5 fails as stated: the reply [[{"scene": "one", "narration": 7}, {}]] is
    malformed data, its first element has fields of the wrong types and its
    second element lacks both fields, yet the run publishes it as a
    storyboard of two scenes, settles both images and ends without any error
    message. *)
Lemma malformed_reply_published :
  conforms_schema fields_malformed = false
  /\ published (trace (generateStoryboard malformed_fields (typed "rockets")))
     = [ [];
         [{| narration := JNumber (integer "7"); imageUrl := None;
             isLoadingImage := true |};
          {| narration := JUndefined; imageUrl := None;
             isLoadingImage := true |}];
         [{| narration := JNumber (integer "7");
             imageUrl := Some (js "data:image/jpeg;base64,QUJD");
             isLoadingImage := false |};
          {| narration := JUndefined; imageUrl := None;
             isLoadingImage := true |}];
         [{| narration := JNumber (integer "7");
             imageUrl := Some (js "data:image/jpeg;base64,QUJD");
             isLoadingImage := false |};
          {| narration := JUndefined;
             imageUrl := Some (js "data:image/jpeg;base64,QUJD");
             isLoadingImage := false |}] ]
  /\ error (state_after malformed_fields (typed "rockets")) = None
  /\ isLoading (state_after malformed_fields (typed "rockets")) = false.
Proof.
  repeat split; reflexivity.
Qed.




(** A reply of two scenes gives a storyboard of two scenes. *)
Lemma storyboard_mirrors_reply_witness :
  length (storyboard (state_after two_scenes (typed "rockets"))) = 2%nat.
Proof.
  destruct (storyboard_mirrors_reply two_scenes (typed "rockets")
              _ _ eq_refl eq_refl eq_refl eq_refl)
    as (initial & later & _ & _ & _ & _ & Hlen & _).
  exact Hlen.
Defined.

(** A reply whose only element lacks the narration is installed. *)
Lemma reply_acceptance_witness :
  accepted narration_missing = true
  /\ exists initial,
       initialStoryboard narration_missing = Normal initial
       /\ published (trace (generateStoryboard missing_narration (typed "rockets")))
          !! 1%nat = Some initial.
Proof.
  split; [reflexivity|].
  destruct (reply_acceptance missing_narration (typed "rockets")
              _ eq_refl eq_refl) as [_ H].
  destruct (H narration_missing eq_refl) as (_ & Hacc & _).
  destruct (Hacc eq_refl) as (initial & Hinit & Hpub & _).
  exists initial. split; assumption.
Defined.

(** C1 fails as stated: with a non-blank concept and a text-generation call
    that succeeds with two conforming scenes, the second one's narration
    empty, the run ends without error on a storyboard of two scenes, one of
    them with an empty narration. *)
Lemma five_scenes_not_enforced :
  is_blank (concept (typed "rockets")) = false
  /\ throws (generateContent two_scenes (narrationPrompt (js "rockets"))) = false
  /\ completion (generateStoryboard two_scenes (typed "rockets")) = Normal tt
  /\ error (state_after two_scenes (typed "rockets")) = None
  /\ length (storyboard (state_after two_scenes (typed "rockets"))) = 2%nat
  /\ length (storyboard (state_after two_scenes (typed "rockets"))) <> 5%nat
  /\ narration <$> storyboard (state_after two_scenes (typed "rockets")) !! 1%nat
     = Some (JString []).
Proof.
  repeat split; try reflexivity. vm_compute. discriminate.
Qed.

(** C3 fails as stated: the response [[{"scene": 1}]] lacks the narration
    field, so it does not conform to the schema, yet the run installs it as a
    storyboard of one scene with an undefined narration, requests its image
    and ends without any error. *)
Lemma nonconforming_reply_installed :
  conforms_schema narration_missing = false
  /\ published (trace (generateStoryboard missing_narration (typed "rockets")))
     = [ [];
         [{| narration := JUndefined; imageUrl := None; isLoadingImage := true |}];
         [{| narration := JUndefined;
             imageUrl := Some (js "data:image/jpeg;base64,QUJD");
             isLoadingImage := false |}] ]
  /\ error (state_after missing_narration (typed "rockets")) = None
  /\ completion (generateStoryboard missing_narration (typed "rockets")) = Normal tt.
Proof.
  repeat split; reflexivity.
Qed.

(** * Further properties of [generateStoryboard] *)

(** ** The whole trace of a run *)

Lemma turn_rendered ai initial j :
  (j < rendered initial)%nat ->
  exists scene prompt,
    initial !! j = Some scene
    /\ imagePrompt scene = Normal prompt
    /\ turn ai initial j
       = CallGenerateImages prompt :: catch_log (image_result ai j prompt)
           ++ [SetStoryboard (stage ai initial (S j))].
Proof.
  intros Hj. destruct (rendered_lookup initial j Hj) as (scene & prompt & Hs & Hp).
  exists scene, prompt. unfold turn. rewrite Hs, Hp. auto.
Qed.

Lemma image_loop_turns ai initial pending : forall i,
  drop i initial = pending ->
  trace (image_loop ai i pending (stage ai initial i))
  = concat (turn ai initial <$> seq i (rendered pending)).
Proof.
  induction pending as [|scene pending IH]; intros i Hdrop; [reflexivity|].
  assert (Hi : initial !! i = Some scene).
  { rewrite <- (Nat.add_0_r i), <- lookup_drop, Hdrop. reflexivity. }
  assert (Hrest : drop (S i) initial = pending).
  { rewrite (drop_S _ _ _ Hi) in Hdrop. congruence. }
  rewrite image_loop_cons. simpl.
  destruct (imagePrompt scene) as [prompt|e] eqn:Hp; [|reflexivity].
  simpl. rewrite (merge_stage ai initial i scene prompt Hi Hp).
  unfold turn at 1. rewrite Hi, Hp. simpl.
  rewrite <- app_assoc. simpl. rewrite (IH (S i) Hrest). reflexivity.
Qed.

(** Every event of a run that installs a storyboard, in order: the four
    resets, the text request, the installation, one turn per scene up to the
    first scene whose prompt cannot be built, and the epilogue. *)
Lemma run_trace_installed ai st initial :
  is_blank (concept st) = false ->
  narration_phase ai (concept st) = Normal initial ->
  trace (generateStoryboard ai st)
  = prologue
    ++ [CallGenerateContent (narrationPrompt (concept st)); SetStoryboard initial]
    ++ concat (turn ai initial <$> seq 0 (rendered initial))
    ++ epilogue (prompts_completion initial).
Proof.
  intros Hc Hphase.
  rewrite (generateStoryboard_trace _ _ Hc), (generate_trace_installed _ _ _ Hphase).
  rewrite <- (image_loop_turns ai initial initial 0 eq_refl), stage_0.
  reflexivity.
Qed.

Lemma turns_observed ai initial : forall j,
  (j <= rendered initial)%nat ->
  published (concat (turn ai initial <$> seq 0 j))
  = stage ai initial <$> seq 1 j
  /\ length (requests (concat (turn ai initial <$> seq 0 j))) = j.
Proof.
  induction j as [|j IH]; intros Hj; [split; reflexivity|].
  destruct IH as [IHp IHr]; [lia|].
  destruct (turn_rendered ai initial j) as (scene & prompt & _ & _ & Hturn); [lia|].
  rewrite (seq_S j 0), fmap_app, concat_app.
  change (concat (turn ai initial <$> [(0 + j)%nat]))
    with (turn ai initial j ++ []).
  rewrite app_nil_r, Hturn. split.
  - rewrite (seq_S j 1), fmap_app.
    unfold published in *. rewrite omap_app, IHp. f_equal.
    simpl. rewrite omap_app.
    destruct (image_result ai j prompt); reflexivity.
  - unfold requests in *. rewrite omap_app, length_app, IHr.
    simpl. rewrite omap_app, length_app.
    destruct (image_result ai j prompt); simpl; lia.
Qed.

(** ** Requests *)

Lemma omap_cons_Some {A B} (f : A -> option B) x y l :
  f x = Some y -> omap f (x :: l) = y :: omap f l.
Proof. intros H. simpl. rewrite H. reflexivity. Qed.

Lemma omap_cons_None {A B} (f : A -> option B) x l :
  f x = None -> omap f (x :: l) = omap f l.
Proof. intros H. simpl. rewrite H. reflexivity. Qed.

Lemma image_loop_request_list ai pending : forall i cur,
  requests (trace (image_loop ai i pending cur))
  = CallGenerateImages <$> omap prompt_of (take (rendered pending) pending).
Proof.
  induction pending as [|scene pending IH]; intros i cur; [reflexivity|].
  rewrite image_loop_cons. cbn [rendered].
  destruct (imagePrompt scene) as [prompt|e] eqn:Hp; [|reflexivity].
  assert (Hpo : prompt_of scene = Some prompt).
  { unfold prompt_of. rewrite Hp. reflexivity. }
  cbn [take trace fst firstn]. rewrite (omap_cons_Some _ _ _ _ Hpo).
  rewrite fmap_cons.
  unfold requests.
  rewrite (omap_cons_Some _ (CallGenerateImages prompt) (CallGenerateImages prompt))
    by reflexivity.
  f_equal. rewrite omap_app.
  replace (omap _ (catch_log (image_result ai i prompt))) with (@nil Event)
    by (destruct (image_result ai i prompt); reflexivity).
  rewrite app_nil_l, omap_cons_None by reflexivity.
  apply IH.
Qed.

Lemma run_request_list ai st :
  is_blank (concept st) = false ->
  requests (trace (generateStoryboard ai st))
  = CallGenerateContent (narrationPrompt (concept st))
    :: match narration_phase ai (concept st) with
       | Normal initial =>
           CallGenerateImages
             <$> omap prompt_of (take (rendered initial) initial)
       | Throw _ => []
       end.
Proof.
  intros Hc. rewrite (generateStoryboard_trace _ _ Hc).
  unfold requests. rewrite !omap_app.
  fold (requests (epilogue (completion (generate ai (concept st))))).
  destruct (epilogue_updates (completion (generate ai (concept st))))
    as (_ & -> & _).
  rewrite app_nil_r. simpl.
  destruct (narration_phase ai (concept st)) as [initial|e] eqn:Hphase.
  - rewrite (generate_trace_installed _ _ _ Hphase). simpl. f_equal.
    apply image_loop_request_list.
  - rewrite (generate_trace_failed _ _ _ Hphase). reflexivity.
Qed.

(** X2.  The requests of a run with a non-blank concept are one text request
    and then, when a storyboard is installed, one image request per scene in
    scene order, each with the prompt built from that scene's narration, up
    to the first scene whose prompt cannot be built.  No request is ever
    repeated: there is no retry. *)
Theorem requests_in_scene_order (ai : Services) (st : AppState) :
  is_blank (concept st) = false ->
  requests (trace (generateStoryboard ai st))
  = CallGenerateContent (narrationPrompt (concept st))
    :: match narration_phase ai (concept st) with
       | Normal initial =>
           CallGenerateImages
             <$> omap prompt_of (take (rendered initial) initial)
       | Throw _ => []
       end.
Proof. exact (run_request_list ai st). Qed.

(** X3.  The loop is sequential.  In a run that installs a storyboard, the
    image request of scene [j] goes out only after the installed storyboard
    and the results of all scenes before [j] have been published: at that
    point exactly the clearing and the stages 0 to [j] were published and
    [j] image requests were sent before. *)
Theorem image_request_after_publication (ai : Services) (st : AppState)
    (initial : list Scene) (j : nat) :
  is_blank (concept st) = false ->
  narration_phase ai (concept st) = Normal initial ->
  (j < rendered initial)%nat ->
  exists before after scene prompt,
    trace (generateStoryboard ai st)
    = before ++ CallGenerateImages prompt :: after
    /\ initial !! j = Some scene
    /\ imagePrompt scene = Normal prompt
    /\ published before = [] :: (stage ai initial <$> seq 0 (S j))
    /\ length (requests before) = S j.
Proof.
  intros Hc Hphase Hj.
  destruct (turn_rendered ai initial j Hj) as (scene & prompt & Hs & Hp & Hturn).
  destruct (turns_observed ai initial j) as [Hpub Hreq]; [lia|].
  exists (prologue
          ++ [CallGenerateContent (narrationPrompt (concept st));
              SetStoryboard initial]
          ++ concat (turn ai initial <$> seq 0 j)),
    (catch_log (image_result ai j prompt)
     ++ [SetStoryboard (stage ai initial (S j))]
     ++ concat (turn ai initial <$> seq (S j) (rendered initial - S j))
     ++ epilogue (prompts_completion initial)),
    scene, prompt.
  split; [|split; [exact Hs|split; [exact Hp|split]]].
  - rewrite (run_trace_installed _ _ _ Hc Hphase).
    replace (rendered initial) with (j + S (rendered initial - S j))%nat at 1 by lia.
    rewrite seq_app, fmap_app, concat_app. simpl. rewrite Hturn.
    rewrite <- !app_assoc. simpl. rewrite <- !app_assoc. reflexivity.
  - unfold published in *. rewrite !omap_app, Hpub. simpl.
    rewrite stage_0. reflexivity.
  - unfold requests in *. rewrite !omap_app, !length_app, Hreq. reflexivity.
Qed.

(** ** The console *)

Lemma image_loop_console ai pending : forall i cur,
  console_errors (trace (image_loop ai i pending cur))
  = omap id (imap (fun k => image_failure ai (i + k))
               (take (rendered pending) pending)).
Proof.
  induction pending as [|scene pending IH]; intros i cur; [reflexivity|].
  rewrite image_loop_cons. cbn [rendered].
  destruct (imagePrompt scene) as [prompt|e] eqn:Hp; [|reflexivity].
  cbn [take trace fst firstn]. rewrite imap_cons.
  unfold console_errors.
  rewrite omap_cons_None, omap_app by reflexivity.
  assert (Hhere : omap (fun ev => match ev with ConsoleError e => Some e | _ => None end)
                    (catch_log (image_result ai i prompt))
                  = omap id [image_failure ai (i + 0) scene]).
  { unfold image_failure. rewrite Hp, Nat.add_0_r.
    destruct (image_result ai i prompt); reflexivity. }
  rewrite Hhere.
  rewrite (omap_cons_None _ (SetStoryboard _)) by reflexivity.
  fold (console_errors (trace (image_loop ai (S i) pending
                                 (merge_result i (image_result ai i prompt) cur)))).
  rewrite IH.
  change (image_failure ai (i + 0) scene
          :: imap ((fun k => image_failure ai (i + k)) ∘ S)
               (take (rendered pending) pending))
    with ([image_failure ai (i + 0) scene]
          ++ imap ((fun k => image_failure ai (i + k)) ∘ S)
               (take (rendered pending) pending)).
  rewrite omap_app. f_equal. f_equal.
  apply imap_ext. intros k s _. simpl. f_equal. lia.
Qed.

(** X4.  Every failure of a run is written to the console exactly once and
    in the order it happens: the exception of each failed image call, by the
    inner [catch], and the exception that ends the run, if there is one, by
    the outer [catch].  A run without failure writes nothing. *)
Theorem failures_logged (ai : Services) (st : AppState) :
  is_blank (concept st) = false ->
  console_errors (trace (generateStoryboard ai st))
  = match narration_phase ai (concept st) with
    | Throw e => [e]
    | Normal initial =>
        omap id (imap (image_failure ai) (take (rendered initial) initial))
        ++ match prompts_completion initial with
           | Throw e => [e]
           | Normal _ => []
           end
    end.
Proof.
  intros Hc. rewrite (generateStoryboard_trace _ _ Hc).
  unfold console_errors. rewrite !omap_app. simpl.
  destruct (narration_phase ai (concept st)) as [initial|e] eqn:Hphase.
  - rewrite (generate_trace_installed _ _ _ Hphase).
    cbn [trace completion fst snd].
    rewrite !omap_cons_None by reflexivity.
    fold (console_errors (trace (image_loop ai 0 initial initial))).
    rewrite image_loop_console. f_equal.
    destruct (prompts_completion initial); reflexivity.
  - rewrite (generate_trace_failed _ _ _ Hphase). reflexivity.
Qed.

(** ** Edges of the run *)

Lemma rendered_stops pending :
  (rendered pending < length pending)%nat ->
  exists scene e,
    pending !! rendered pending = Some scene /\ imagePrompt scene = Throw e.
Proof.
  induction pending as [|s pending IH]; simpl; [lia|].
  destruct (imagePrompt s) as [prompt|e] eqn:Hp; intros Hlt.
  - apply IH. lia.
  - exists s, e. split; [reflexivity|exact Hp].
Qed.

(** X5.  The image prompt is built outside the inner [try].  When the prompt
    of scene [m] is the first that cannot be built, the loop stops there: the
    [m] scenes before it have settled and got their one request each, scene
    [m] and all scenes after it are never requested and stay marked as
    loading in the final storyboard, and the run ends with the generic error
    message and the busy flag cleared. *)
Theorem unbuildable_prompt_stops_loop (ai : Services) (st : AppState)
    (initial : list Scene) :
  is_blank (concept st) = false ->
  narration_phase ai (concept st) = Normal initial ->
  (rendered initial < length initial)%nat ->
  (exists scene e,
     initial !! rendered initial = Some scene /\ imagePrompt scene = Throw e)
  /\ error (state_after ai st) = Some failure_message
  /\ isLoading (state_after ai st) = false
  /\ length (requests (trace (generateStoryboard ai st))) = S (rendered initial)
  /\ (forall j s, initial !! j = Some s ->
        storyboard (state_after ai st) !! j
        = Some (if Nat.ltb j (rendered initial) then settle ai j s else s))
  /\ (forall j s, (rendered initial <= j)%nat ->
        storyboard (state_after ai st) !! j = Some s ->
        isLoadingImage s = true /\ imageUrl s = None).
Proof.
  intros Hc Hphase Hlt.
  destruct (state_after_installed ai st initial Hc Hphase) as (Hsb & Herr & Hbusy).
  assert (Hlook : forall j s, initial !! j = Some s ->
            storyboard (state_after ai st) !! j
            = Some (if Nat.ltb j (rendered initial) then settle ai j s else s)).
  { intros j s Hj. rewrite Hsb, stage_lookup, Hj. reflexivity. }
  split; [apply rendered_stops, Hlt|].
  split.
  { rewrite Herr. destruct (Nat.eqb_spec (rendered initial) (length initial));
      [lia|reflexivity]. }
  split; [exact Hbusy|].
  split.
  { rewrite (run_request_list ai st Hc), Hphase. simpl.
    rewrite <- (image_loop_request_list ai initial 0 initial).
    rewrite image_loop_requests. reflexivity. }
  split; [exact Hlook|].
  intros j s Hj Hs.
  destruct (initial !! j) as [s0|] eqn:Hj0.
  - rewrite (Hlook j s0 Hj0) in Hs.
    destruct (Nat.ltb_spec j (rendered initial)); [lia|].
    injection Hs as <-.
    apply (Forall_lookup_1 _ _ _ _ (narration_phase_fresh _ _ _ Hphase) Hj0).
  - apply lookup_lt_Some in Hs. apply lookup_ge_None in Hj0.
    rewrite Hsb, length_stage in Hs. lia.
Qed.

(** X6.  A reply that is the empty array is installed like any other: the
    run publishes the empty storyboard twice, requests no image, completes
    without error message, and leaves the page as it was before the button
    was pressed, showing the form and no message. *)
Theorem empty_reply_returns_to_form (ai : Services) (st : AppState)
    (resp : GenerateContentResponse) :
  is_blank (concept st) = false ->
  generateContent ai (narrationPrompt (concept st)) = Normal resp ->
  text_as_json resp = Some (JArray []) ->
  trace (generateStoryboard ai st)
  = prologue
    ++ [CallGenerateContent (narrationPrompt (concept st)); SetStoryboard [];
        SetIsLoading false]
  /\ storyboard (state_after ai st) = []
  /\ error (state_after ai st) = None
  /\ isLoading (state_after ai st) = false
  /\ form_shown (state_after ai st) = true
  /\ error_shown (state_after ai st) = false.
Proof.
  intros Hc Hresp Htext.
  assert (Hphase : narration_phase ai (concept st) = Normal []).
  { rewrite (narration_phase_parsed _ _ _ _ Hresp Htext). reflexivity. }
  destruct (state_after_installed ai st [] Hc Hphase) as (Hsb & Herr & Hbusy).
  simpl in Hsb, Herr.
  split; [rewrite (run_trace_installed _ _ _ Hc Hphase); reflexivity|].
  repeat split; try assumption.
  - unfold form_shown. rewrite Hsb, Hbusy. reflexivity.
  - unfold error_shown. rewrite Herr. reflexivity.
Qed.

(** ** Independence from the previous state *)

Lemma AppState_eq (a b : AppState) :
  storyboard a = storyboard b ->
  concept a = concept b ->
  currentSceneIndex a = currentSceneIndex b ->
  isLoading a = isLoading b ->
  error a = error b ->
  a = b.
Proof. destruct a, b. simpl. intros. subst. reflexivity. Qed.

(** X1.  A run with a non-blank concept starts from scratch: the state it
    ends in is determined by the concept and by what the services answer, and
    keeps nothing of the storyboard, cursor, error message or busy flag the
    page had before.  The cursor ends at 0 and the concept is left as typed. *)
Theorem run_discards_previous_state (ai : Services) (st st' : AppState) :
  is_blank (concept st) = false ->
  concept st' = concept st ->
  state_after ai st' = state_after ai st
  /\ currentSceneIndex (state_after ai st) = 0
  /\ concept (state_after ai st) = concept st.
Proof.
  intros Hc Heq.
  assert (Hc' : is_blank (concept st') = false) by (rewrite Heq; exact Hc).
  destruct (state_after_run ai st Hc) as (Hb & Hi & He & Hs).
  destruct (state_after_run ai st' Hc') as (Hb' & Hi' & He' & Hs').
  assert (Hconcept : forall s, concept (state_after ai s) = concept s).
  { intros s. unfold state_after. apply concept_apply_trace. }
  split; [|split; [exact Hi|apply Hconcept]].
  apply AppState_eq.
  - rewrite Hs, Hs', Heq. reflexivity.
  - rewrite !Hconcept. exact Heq.
  - rewrite Hi, Hi'. reflexivity.
  - rewrite Hb, Hb'. reflexivity.
  - rewrite He, He', Heq. reflexivity.
Qed.

(** * Further properties of the navigation *)

Lemma presses_next n : forall st,
  currentSceneIndex st <= Z.of_nat (length (storyboard st)) - 1 ->
  currentSceneIndex (fold_left navigate (repeat Next n) st)
  = Z.min (currentSceneIndex st + Z.of_nat n)
          (Z.of_nat (length (storyboard st)) - 1)
  /\ storyboard (fold_left navigate (repeat Next n) st) = storyboard st.
Proof.
  induction n as [|n IH]; intros st Hle; [simpl; split; [lia|reflexivity]|].
  cbn [repeat fold_left navigate].
  destruct (IH (handleNext st)) as [Hc Hs]; [simpl; lia|].
  rewrite Hc, Hs. simpl. split; [lia|reflexivity].
Qed.

Lemma presses_prev n : forall st,
  0 <= currentSceneIndex st ->
  currentSceneIndex (fold_left navigate (repeat Prev n) st)
  = Z.max (currentSceneIndex st - Z.of_nat n) 0
  /\ storyboard (fold_left navigate (repeat Prev n) st) = storyboard st.
Proof.
  induction n as [|n IH]; intros st Hle; [simpl; split; [lia|reflexivity]|].
  cbn [repeat fold_left navigate].
  destruct (IH (handlePrev st)) as [Hc Hs]; [simpl; lia|].
  rewrite Hc, Hs. simpl. split; [lia|reflexivity].
Qed.

(** X7.  Away from the two ends [prev()] and [next()] undo each other:
    [prev()] after [next()] gives back the state unless the cursor was on the
    last scene, and [next()] after [prev()] gives it back unless the cursor
    was on the first. *)
Theorem prev_next_round_trip (st : AppState) :
  cursor_in_range st ->
  (currentSceneIndex st < Z.of_nat (length (storyboard st)) - 1 ->
   handlePrev (handleNext st) = st)
  /\ (0 < currentSceneIndex st -> handleNext (handlePrev st) = st).
Proof.
  unfold cursor_in_range. intros Hin.
  split; intros H; apply AppState_eq; try reflexivity; simpl; lia.
Qed.

(** X8.  Pressing Next [n] times moves an in-range cursor forward by [n],
    stopping on the last scene; pressing Prev [n] times moves it back by [n],
    stopping on the first.  The storyboard is not touched. *)
Theorem repeated_presses (st : AppState) (n : nat) :
  cursor_in_range st ->
  currentSceneIndex (fold_left navigate (repeat Next n) st)
  = Z.min (currentSceneIndex st + Z.of_nat n)
          (Z.of_nat (length (storyboard st)) - 1)
  /\ currentSceneIndex (fold_left navigate (repeat Prev n) st)
     = Z.max (currentSceneIndex st - Z.of_nat n) 0
  /\ storyboard (fold_left navigate (repeat Next n) st) = storyboard st
  /\ storyboard (fold_left navigate (repeat Prev n) st) = storyboard st.
Proof.
  unfold cursor_in_range. intros Hin.
  destruct (presses_next n st) as [Hn Hns]; [lia|].
  destruct (presses_prev n st) as [Hp Hps]; [lia|].
  auto.
Qed.

(** X9.  Every scene can be reached: from an in-range cursor, any index of
    the storyboard is reached by pressing one of the two buttons as many times
    as the two indices are apart. *)
Theorem every_scene_reachable (st : AppState) (target : Z) :
  cursor_in_range st ->
  0 <= target <= Z.of_nat (length (storyboard st)) - 1 ->
  exists ops,
    length ops = Z.abs_nat (target - currentSceneIndex st)
    /\ currentSceneIndex (fold_left navigate ops st) = target
    /\ storyboard (fold_left navigate ops st) = storyboard st.
Proof.
  unfold cursor_in_range. intros Hin Ht.
  destruct (Z_le_gt_dec (currentSceneIndex st) target) as [Hle|Hgt].
  - exists (repeat Next (Z.abs_nat (target - currentSceneIndex st))).
    destruct (presses_next (Z.abs_nat (target - currentSceneIndex st)) st)
      as [Hc Hs]; [lia|].
    rewrite repeat_length, Hc, Hs. repeat split. lia.
  - exists (repeat Prev (Z.abs_nat (target - currentSceneIndex st))).
    destruct (presses_prev (Z.abs_nat (target - currentSceneIndex st)) st)
      as [Hc Hs]; [lia|].
    rewrite repeat_length, Hc, Hs. repeat split. lia.
Qed.

(** * Properties of the page *)

(** X10.  A carousel button is disabled exactly when its handler would change
    nothing: over an in-range cursor, Prev is disabled if and only if
    [handlePrev] returns the state as it is, and Next is disabled if and only
    if [handleNext] does. *)
Theorem disabled_buttons_are_noops (st : AppState) :
  cursor_in_range st ->
  (prev_disabled st = true <-> handlePrev st = st)
  /\ (next_disabled st = true <-> handleNext st = st).
Proof.
  unfold cursor_in_range, prev_disabled, next_disabled. intros Hin.
  split; split; intros H.
  - apply Z.eqb_eq in H. apply AppState_eq; try reflexivity. simpl. lia.
  - apply (f_equal currentSceneIndex) in H. simpl in H.
    apply Z.eqb_eq. lia.
  - apply Z.eqb_eq in H. apply AppState_eq; try reflexivity. simpl. lia.
  - apply (f_equal currentSceneIndex) in H. simpl in H.
    apply Z.eqb_eq. lia.
Qed.

Lemma image_data_url_truthy r url :
  image_data_url r = Normal url -> truthy (Some url) = true.
Proof.
  unfold image_data_url.
  destruct (generatedImages r) as [[|first rest]|]; try discriminate.
  destruct (image first); try discriminate.
  intros [= <-]. reflexivity.
Qed.

Lemma truthy_settled_url ai j scene prompt :
  imagePrompt scene = Normal prompt ->
  truthy (settled_url ai j scene)
  = match image_failure ai j scene with None => true | Some _ => false end.
Proof.
  intros Hp. unfold settled_url, image_failure, image_result. rewrite Hp.
  destruct (generateImages ai j prompt) as [r|e]; simpl; [|reflexivity].
  destruct (image_data_url r) as [url|e] eqn:Hurl; [|reflexivity].
  apply (image_data_url_truthy _ _ Hurl).
Qed.

(** X11.  The three conditions of the image container follow the run.  In
    the snapshot published after [k] images have settled, scene [j] shows
    the spinner exactly when [k <= j]; once settled it shows its image
    exactly when its
    image call succeeded, and the text that the image could not be loaded
    exactly when the call failed.  A data URL is never empty, so a
    successful scene never falls back to that text. *)
Theorem image_container_follows_run (ai : Services) (st : AppState)
    (initial snap : list Scene) (k j : nat) (s : Scene) :
  is_blank (concept st) = false ->
  narration_phase ai (concept st) = Normal initial ->
  published (trace (generateStoryboard ai st)) !! S k = Some snap ->
  snap !! j = Some s ->
  exists s0,
    initial !! j = Some s0
    /\ image_loader_shown s = negb (Nat.ltb j k)
    /\ image_shown s
       = Nat.ltb j k
         && match image_failure ai j s0 with None => true | Some _ => false end
    /\ image_fallback_shown s
       = Nat.ltb j k
         && match image_failure ai j s0 with None => false | Some _ => true end.
Proof.
  intros Hc Hphase Hsnap Hs.
  rewrite (run_published_installed _ _ _ Hc Hphase) in Hsnap. simpl in Hsnap.
  apply lookup_stages in Hsnap as [Hk ->].
  rewrite stage_lookup in Hs.
  destruct (initial !! j) as [s0|] eqn:Hj; [|discriminate].
  simpl in Hs. injection Hs as <-. exists s0. split; [reflexivity|].
  destruct (Forall_lookup_1 _ _ _ _ (narration_phase_fresh _ _ _ Hphase) Hj)
    as [Hload Hurl].
  unfold image_loader_shown, image_shown, image_fallback_shown.
  destruct (Nat.ltb_spec j k) as [Hlt|Hge]; simpl.
  - destruct (rendered_lookup initial j) as (s1 & prompt & Hj1 & Hp); [lia|].
    rewrite Hj in Hj1. injection Hj1 as <-.
    rewrite (truthy_settled_url ai j s0 prompt Hp).
    destruct (image_failure ai j s0); auto.
  - rewrite Hload, Hurl. auto.
Qed.

(** * The user at the page *)

Lemma until_await_app before request after :
  Forall (fun ev => is_request ev = false) before ->
  is_request request = true ->
  until_await (before ++ request :: after) = (before ++ [request], after).
Proof.
  intros Hbefore Hreq.
  induction Hbefore as [|ev before Hev _ IH]; simpl.
  - rewrite Hreq. reflexivity.
  - rewrite Hev, IH. reflexivity.
Qed.

(** Pressing the button: the four resets and the text request happen at
    once, the rest of the run is suspended. *)
Lemma click_generate ai st :
  is_blank (concept st) = false ->
  exists mid n,
    until_await (trace (generateStoryboard ai st))
    = (prologue ++ [CallGenerateContent (narrationPrompt (concept st))],
       mid ++ [SetIsLoading false])
    /\ busy_updates mid = []
    /\ cursor_updates mid = []
    /\ Forall (fun e => e = Some failure_message) (error_updates mid)
    /\ Forall (fun sb => length sb = n) (published mid).
Proof.
  intros Hc. rewrite (generateStoryboard_trace _ _ Hc).
  destruct (narration_phase ai (concept st)) as [initial|e] eqn:Hphase.
  - pose proof (generate_published ai (concept st)) as Hpub.
    rewrite Hphase in Hpub.
    rewrite (generate_trace_installed _ _ _ Hphase) in *.
    cbn [trace completion fst snd] in *.
    set (loop := trace (image_loop ai 0 initial initial)) in *.
    destruct (loop_events_updates loop (image_loop_events ai initial 0 initial))
      as (Herr & Hbusy & Hcur).
    exists (SetStoryboard initial :: loop
            ++ match prompts_completion initial with
               | Normal _ => []
               | Throw e => [ConsoleError e; SetError (Some failure_message)]
               end), (length initial).
    split; [|split; [|split; [|split]]].
    + change ((CallGenerateContent ?q :: ?l) ++ ?t)
        with (CallGenerateContent q :: (l ++ t)).
      rewrite (until_await_app prologue) by (repeat constructor).
      f_equal. unfold epilogue. simpl. rewrite <- !app_assoc. reflexivity.
    + change (busy_updates (SetStoryboard initial :: ?t)) with (busy_updates t).
      unfold busy_updates in *. rewrite omap_app, Hbusy.
      destruct (prompts_completion initial); reflexivity.
    + change (cursor_updates (SetStoryboard initial :: ?t)) with (cursor_updates t).
      unfold cursor_updates in *. rewrite omap_app, Hcur.
      destruct (prompts_completion initial); reflexivity.
    + change (error_updates (SetStoryboard initial :: ?t)) with (error_updates t).
      unfold error_updates in *. rewrite omap_app, Herr.
      destruct (prompts_completion initial); repeat constructor.
    + assert (Hall : published (SetStoryboard initial :: loop)
                     = stage ai initial <$> seq 0 (S (rendered initial)))
        by exact Hpub.
      change (published (SetStoryboard initial :: ?t))
        with (initial :: published t) in *.
      unfold published in *. rewrite omap_app.
      replace (omap _ match prompts_completion initial with
                      | Normal _ => []
                      | Throw e => [ConsoleError e; SetError (Some failure_message)]
                      end) with (@nil (list Scene))
        by (destruct (prompts_completion initial); reflexivity).
      rewrite app_nil_r, Hall.
      apply Forall_fmap, Forall_true. intros k. apply length_stage.
  - rewrite (generate_trace_failed _ _ _ Hphase).
    cbn [trace completion fst snd].
    exists [ConsoleError e; SetError (Some failure_message)], 0%nat.
    split; [|repeat split; repeat constructor].
    change ((CallGenerateContent ?q :: ?l) ++ ?t)
      with (CallGenerateContent q :: (l ++ t)).
    rewrite (until_await_app prologue) by (repeat constructor).
    reflexivity.
Qed.

Lemma page_ok_start : page_ok first_page.
Proof. unfold page_ok. simpl. repeat split; auto; lia. Qed.

Lemma scene_shown_in_range st :
  scene_shown st = true -> cursor_in_range st.
Proof.
  unfold scene_shown, currentScene, cursor_in_range.
  intros H. apply andb_prop in H as [Hlen Hcur].
  destruct (Z.ltb_spec (currentSceneIndex st) 0); [discriminate|].
  destruct (storyboard st !! Z.to_nat (currentSceneIndex st)) eqn:Hs;
    [|discriminate].
  apply lookup_lt_Some in Hs. lia.
Qed.

Lemma page_ok_step p a :
  page_ok p -> offered p a = true -> page_ok (perform p a).
Proof.
  destruct p as [st runs]. unfold page_ok. simpl.
  intros (Hcur & Herr & Hruns) Hoff.
  destruct a as [c|ai| | |k]; simpl in *.
  - (* typing *)
    split; [exact Hcur|]. split; [exact Herr|].
    destruct runs as [|r [|r' runs]]; [exact Hruns| |exact Hruns].
    destruct Hruns as [Hb (mid & n & H)]. split; [exact Hb|].
    exists mid, n. exact H.
  - (* the button *)
    apply andb_prop in Hoff as [Hform Hen].
    unfold form_shown in Hform. apply andb_prop in Hform as [Hlen Hidle].
    apply Nat.eqb_eq in Hlen. apply negb_true_iff in Hidle.
    unfold generate_disabled in Hen. rewrite Hidle in Hen. simpl in Hen.
    apply negb_true_iff in Hen.
    destruct runs as [|r [|r' runs]];
      [|destruct Hruns as [Hb _]; congruence|contradiction].
    destruct (click_generate ai st Hen) as (mid & n & -> & Hb & Hc & He & Hp).
    simpl. destruct mid; simpl.
    + repeat split; auto; try lia.
      exists [], n. repeat split; auto.
    + repeat split; auto; try lia.
      exists (e :: mid), n. repeat split; auto.
  - (* Prev *)
    apply andb_prop in Hoff as [Hshown _].
    apply scene_shown_in_range in Hshown. unfold cursor_in_range in Hshown.
    split; [lia|]. split; [exact Herr|].
    destruct runs as [|r [|r' runs]]; [exact Hruns| |exact Hruns].
    destruct Hruns as [Hb (mid & n & H)]. split; [exact Hb|].
    exists mid, n. exact H.
  - (* Next *)
    apply andb_prop in Hoff as [Hshown _].
    apply scene_shown_in_range in Hshown. unfold cursor_in_range in Hshown.
    split; [lia|]. split; [exact Herr|].
    destruct runs as [|r [|r' runs]]; [exact Hruns| |exact Hruns].
    destruct Hruns as [Hb (mid & n & H)]. split; [exact Hb|].
    exists mid, n. exact H.
  - (* a suspended run goes on *)
    destruct runs as [|r [|r' runs]]; [discriminate| |contradiction].
    destruct k as [|k]; [|discriminate]. simpl.
    destruct Hruns as [Hb (mid & n & -> & Hbusy & Hcursor & Herrs & Hpub & Hlen)].
    destruct mid as [|ev mid]; simpl.
    + repeat split; auto; lia.
    + assert (Hrest : match mid ++ [SetIsLoading false] with
                      | [] => []
                      | _ :: _ => [mid ++ [SetIsLoading false]]
                      end = [mid ++ [SetIsLoading false]])
        by (destruct mid; reflexivity).
      rewrite Hrest. clear Hrest.
      destruct ev; simpl in *; try discriminate.
      * (* setError *)
        apply Forall_cons in Herrs as [-> Herrs].
        split; [exact Hcur|]. split; [right; reflexivity|]. split; [exact Hb|].
        exists mid, n. repeat split; assumption.
      * (* setStoryboard *)
        apply Forall_cons in Hpub as [Hsb Hpub].
        split.
        { destruct Hlen as [Hnil|Hn].
          - rewrite Hnil in Hcur. simpl in Hcur. lia.
          - rewrite Hsb, <- Hn. exact Hcur. }
        split; [exact Herr|]. split; [exact Hb|].
        exists mid, n. repeat split; try assumption. right. exact Hsb.
      * split; [exact Hcur|]. split; [exact Herr|]. split; [exact Hb|].
        exists mid, n. repeat split; assumption.
      * split; [exact Hcur|]. split; [exact Herr|]. split; [exact Hb|].
        exists mid, n. repeat split; assumption.
      * split; [exact Hcur|]. split; [exact Herr|]. split; [exact Hb|].
        exists mid, n. repeat split; assumption.
Qed.

Lemma ui_reachable_ok p : ui_reachable p -> page_ok p.
Proof.
  induction 1 as [|p a _ IH Hoff]; [apply page_ok_start|].
  apply page_ok_step; assumption.
Qed.

Lemma ui_reachable_session actions : forall p,
  ui_reachable p ->
  all_offered p actions = true ->
  ui_reachable (fold_left perform actions p).
Proof.
  induction actions as [|a actions IH]; intros p Hp Hall; [exact Hp|].
  simpl in Hall. apply andb_prop in Hall as [Ha Hall].
  simpl. apply IH; [apply ui_step; assumption|exact Hall].
Qed.

Lemma page_scene_defined p :
  ui_reachable p ->
  (storyboard (page_state p) = [] -> currentSceneIndex (page_state p) = 0)
  /\ (storyboard (page_state p) <> [] -> currentScene (page_state p) <> None).
Proof.
  intros Hp. destruct (ui_reachable_ok p Hp) as (Hcur & _ & _).
  unfold currentScene.
  destruct (storyboard (page_state p)) as [|s sb] eqn:Hsb; simpl in *.
  - split; [intros _; lia|congruence].
  - split; [discriminate|]. intros _.
    destruct (Z.ltb_spec (currentSceneIndex (page_state p)) 0); [lia|].
    intros Hnone. apply lookup_ge_None in Hnone. simpl in Hnone. lia.
Qed.

(** X12.  Through the controls of the page the cursor never leaves the
    storyboard: on every page a user can bring about, the cursor is a valid
    index whenever the storyboard has a scene, and it is 0 whenever the
    storyboard is empty.  The cursor -1 that [handleNext] computes over an
    empty storyboard is out of the user's reach, the Next button being
    rendered only together with a scene. *)
Theorem ui_cursor_in_range (p : Page) :
  ui_reachable p ->
  (storyboard (page_state p) <> [] -> cursor_in_range (page_state p))
  /\ (storyboard (page_state p) = [] -> currentSceneIndex (page_state p) = 0)
  /\ (storyboard (page_state p) <> [] -> currentScene (page_state p) <> None).
Proof.
  intros Hp. destruct (ui_reachable_ok p Hp) as (Hcur & _ & _).
  unfold cursor_in_range, currentScene.
  destruct (storyboard (page_state p)) as [|s sb] eqn:Hsb; simpl in *.
  - repeat split; try congruence; lia.
  - split; [intros _; lia|]. split; [discriminate|]. intros _.
    destruct (Z.ltb_spec (currentSceneIndex (page_state p)) 0); [lia|].
    intros Hnone. apply lookup_ge_None in Hnone. simpl in Hnone. lia.
Qed.

(** X13.  At most one run is ever in progress, and the busy flag is true
    exactly while one is: as long as a run is suspended the form is not
    rendered, so the user can neither press the button nor change the
    concept. *)
Theorem ui_single_flight (p : Page) :
  ui_reachable p ->
  (length (in_flight p) <= 1)%nat
  /\ (isLoading (page_state p) = true <-> in_flight p <> [])
  /\ (in_flight p <> [] ->
      forall a, offered p a = true ->
                a = ClickPrev \/ a = ClickNext \/ a = Settle 0).
Proof.
  intros Hp. destruct (ui_reachable_ok p Hp) as (_ & _ & Hruns).
  destruct p as [st runs]. simpl in *.
  destruct runs as [|r [|r' runs]]; [| |contradiction].
  - split; [simpl; lia|]. split; [|congruence].
    split; [congruence|contradiction].
  - destruct Hruns as [Hb _]. split; [simpl; lia|].
    split; [split; [discriminate|auto]|].
    intros _ a Hoff. destruct a as [c|ai| | |k]; simpl in Hoff; auto.
    + unfold form_shown in Hoff. rewrite Hb, andb_false_r in Hoff. discriminate.
    + unfold form_shown in Hoff. rewrite Hb, andb_false_r in Hoff. discriminate.
    + destruct k; [auto|discriminate].
Qed.

(** X14.  On every page a user can bring about exactly one of the three
    conditions that guard the blocks of the JSX holds: that of the form when
    the storyboard is empty and no run is in progress, that of the spinner
    when it is empty and a run is in progress, that of the scene with its
    carousel when the storyboard has a scene. *)
Theorem ui_one_block (p : Page) :
  ui_reachable p ->
  form_shown (page_state p)
  = Nat.eqb (length (storyboard (page_state p))) 0
    && negb (isLoading (page_state p))
  /\ text_loader_shown (page_state p)
     = Nat.eqb (length (storyboard (page_state p))) 0
       && isLoading (page_state p)
  /\ scene_shown (page_state p)
     = negb (Nat.eqb (length (storyboard (page_state p))) 0)
  /\ (form_shown (page_state p), text_loader_shown (page_state p),
      scene_shown (page_state p))
     ∈ [(true, false, false); (false, true, false); (false, false, true)].
Proof.
  intros Hp. destruct (page_scene_defined p Hp) as [_ Hscene].
  unfold form_shown, text_loader_shown, scene_shown in *.
  destruct (storyboard (page_state p)) as [|s sb] eqn:Hsb; simpl.
  - destruct (isLoading (page_state p)); simpl; repeat split;
      apply list_elem_of_In; simpl; auto.
  - destruct (currentScene (page_state p)) eqn:Hcs;
      [|exfalso; apply Hscene; [discriminate|reflexivity]].
    destruct (isLoading (page_state p)); simpl; repeat split;
      apply list_elem_of_In; simpl; auto.
Qed.

Lemma messages_differ : validation_message <> failure_message.
Proof. discriminate. Qed.

(** X15.  The button is disabled while the concept is blank, so every run a
    user can start passes the test of line 21, and the validation message is
    never on the page: the error cell only ever holds nothing or the generic
    failure message. *)
Theorem ui_never_validation (p : Page) :
  ui_reachable p ->
  (forall ai, offered p (ClickGenerate ai) = true ->
              is_blank (concept (page_state p)) = false)
  /\ (error (page_state p) = None
      \/ error (page_state p) = Some failure_message)
  /\ error (page_state p) <> Some validation_message.
Proof.
  intros Hp. destruct (ui_reachable_ok p Hp) as (_ & Herr & _).
  split; [|split; [exact Herr|]].
  - intros ai Hoff. simpl in Hoff. apply andb_prop in Hoff as [_ Hen].
    apply negb_true_iff in Hen. unfold generate_disabled in Hen.
    apply orb_false_elim in Hen. apply Hen.
  - destruct Herr as [->| ->]; [discriminate|].
    intros H. apply messages_differ. congruence.
Qed.

(** X16.  A story is told once.  As soon as the page holds a storyboard with a
    scene the form is gone for good: no action offered from then on empties
    the storyboard or changes its length, and the button that starts a run is
    never offered again. *)
Theorem ui_story_is_final (p : Page) (a : Action) :
  ui_reachable p ->
  storyboard (page_state p) <> [] ->
  offered p a = true ->
  (forall ai, a <> ClickGenerate ai)
  /\ (forall c, a <> TypeConcept c)
  /\ length (storyboard (page_state (perform p a)))
     = length (storyboard (page_state p))
  /\ storyboard (page_state (perform p a)) <> []
  /\ form_shown (page_state (perform p a)) = false.
Proof.
  intros Hp Hne Hoff.
  assert (Hform : form_shown (page_state p) = false).
  { unfold form_shown. destruct (storyboard (page_state p)); [congruence|].
    reflexivity. }
  assert (Hlen : length (storyboard (page_state (perform p a)))
                 = length (storyboard (page_state p))).
  { destruct (ui_reachable_ok p Hp) as (_ & _ & Hruns).
    destruct p as [st runs]. cbn [page_state in_flight] in *.
    destruct a as [c|ai| | |k]; cbn [offered page_state in_flight] in Hoff;
      try reflexivity.
    - rewrite Hform in Hoff. discriminate.
    - destruct runs as [|r [|r' runs]]; [discriminate| |contradiction].
      destruct k as [|k]; [|discriminate].
      destruct Hruns as [_ (mid & n & -> & _ & _ & _ & Hpub & Hn)].
      destruct Hn as [Hnil|Hn]; [congruence|].
      destruct mid as [|ev mid]; [reflexivity|].
      destruct ev; try reflexivity.
      apply Forall_cons in Hpub as [Hsb _]. simpl. congruence. }
  split; [|split; [|split; [exact Hlen|split]]].
  - intros ai ->. simpl in Hoff. rewrite Hform in Hoff. discriminate.
  - intros c ->. simpl in Hoff. rewrite Hform in Hoff. discriminate.
  - intros Hnil. rewrite Hnil in Hlen. simpl in Hlen.
    destruct (storyboard (page_state p)); [congruence|discriminate].
  - unfold form_shown. rewrite Hlen.
    destruct (storyboard (page_state p)); [congruence|reflexivity].
Qed.

(** * Witnesses of the further properties *)

(** A run on a page that shows an old message ends as a run on a fresh
    page. *)
Lemma run_discards_previous_state_witness :
  error after_failure = Some failure_message
  /\ state_after third_image_unreadable after_failure
     = state_after third_image_unreadable (typed "gravity").
Proof.
  split; [reflexivity|].
  apply (run_discards_previous_state third_image_unreadable
           (typed "gravity") after_failure); reflexivity.
Defined.

(** Five scenes, six requests. *)
Lemma requests_in_scene_order_witness :
  length (requests (trace (generateStoryboard third_image_unreadable
                             (typed "gravity")))) = 6%nat.
Proof.
  rewrite (requests_in_scene_order third_image_unreadable (typed "gravity")
             eq_refl).
  reflexivity.
Defined.

(** The request for the third image. *)
Lemma image_request_after_publication_witness :
  exists before after prompt,
    trace (generateStoryboard third_image_unreadable (typed "gravity"))
    = before ++ CallGenerateImages prompt :: after
    /\ length (published before) = 4%nat.
Proof.
  destruct (image_request_after_publication third_image_unreadable
              (typed "gravity") five_initial 2 eq_refl eq_refl)
    as (before & after & scene & prompt & Ht & _ & _ & Hpub & _);
    [simpl; lia|].
  exists before, after, prompt. split; [exact Ht|].
  rewrite Hpub. reflexivity.
Defined.

(** One unreadable image response, one line on the console. *)
Lemma failures_logged_witness :
  console_errors (trace (generateStoryboard third_image_unreadable
                           (typed "gravity"))) = [TypeError].
Proof.
  rewrite (failures_logged third_image_unreadable (typed "gravity") eq_refl).
  reflexivity.
Defined.

(** The second of three prompts cannot be built. *)
Lemma unbuildable_prompt_stops_loop_witness :
  rendered unbuildable_initial = 1%nat
  /\ error (state_after unbuildable_second (typed "gravity"))
     = Some failure_message
  /\ length (requests (trace (generateStoryboard unbuildable_second
                                (typed "gravity")))) = 2%nat.
Proof.
  split; [reflexivity|].
  destruct (unbuildable_prompt_stops_loop unbuildable_second (typed "gravity")
              unbuildable_initial eq_refl eq_refl)
    as (_ & Herr & _ & Hreq & _); [simpl; lia|].
  split; [exact Herr|exact Hreq].
Defined.

Lemma empty_reply_returns_to_form_witness :
  form_shown (state_after empty_reply (typed "gravity")) = true.
Proof.
  apply (empty_reply_returns_to_form empty_reply (typed "gravity")
           _ eq_refl eq_refl eq_refl).
Defined.

Lemma on_last_scene_in_range : cursor_in_range on_last_scene.
Proof. unfold cursor_in_range. simpl. lia. Defined.

Lemma prev_next_round_trip_witness :
  handleNext (handlePrev on_last_scene) = on_last_scene.
Proof.
  apply (prev_next_round_trip on_last_scene on_last_scene_in_range).
  simpl. lia.
Defined.

Lemma repeated_presses_witness :
  currentSceneIndex (fold_left navigate (repeat Prev 3) on_last_scene) = 0.
Proof.
  destruct (repeated_presses on_last_scene 3 on_last_scene_in_range)
    as (_ & Hprev & _).
  rewrite Hprev. reflexivity.
Defined.

Lemma every_scene_reachable_witness :
  exists ops,
    length ops = 1%nat
    /\ currentSceneIndex (fold_left navigate ops on_last_scene) = 0.
Proof.
  destruct (every_scene_reachable on_last_scene 0 on_last_scene_in_range)
    as (ops & Hlen & Hc & _); [simpl; lia|].
  exists ops. split; [exact Hlen|exact Hc].
Defined.

Lemma disabled_buttons_are_noops_witness :
  next_disabled on_last_scene = true
  /\ handleNext on_last_scene = on_last_scene.
Proof.
  split; [reflexivity|].
  apply (disabled_buttons_are_noops on_last_scene on_last_scene_in_range).
  reflexivity.
Defined.

(** After three images the third scene shows the fallback text. *)
Lemma image_container_follows_run_witness :
  exists snap s,
    published (trace (generateStoryboard third_image_unreadable (typed "gravity")))
      !! 4%nat = Some snap
    /\ snap !! 2%nat = Some s
    /\ image_fallback_shown s = true.
Proof.
  eexists. eexists. split; [reflexivity|]. split; [reflexivity|].
  destruct (image_container_follows_run third_image_unreadable (typed "gravity")
              five_initial _ 3 2 _ eq_refl eq_refl eq_refl eq_refl)
    as (s0 & Hs0 & _ & _ & Hfall).
  injection Hs0 as <-. exact Hfall.
Defined.

Lemma telling_a_story_reachable : ui_reachable (session telling_a_story).
Proof. apply (ui_reachable_session telling_a_story first_page ui_start eq_refl). Defined.

Lemma ui_cursor_in_range_witness :
  currentSceneIndex (page_state (session telling_a_story)) = 1
  /\ cursor_in_range (page_state (session telling_a_story)).
Proof.
  split; [reflexivity|].
  apply (ui_cursor_in_range (session telling_a_story) telling_a_story_reachable).
  discriminate.
Defined.

Lemma ui_single_flight_witness :
  (length (in_flight (session telling_a_story)) <= 1)%nat.
Proof.
  apply (ui_single_flight (session telling_a_story) telling_a_story_reachable).
Defined.

Lemma ui_one_block_witness :
  scene_shown (page_state (session telling_a_story))
  = negb (Nat.eqb (length (storyboard (page_state (session telling_a_story)))) 0).
Proof.
  apply (ui_one_block (session telling_a_story) telling_a_story_reachable).
Defined.

Lemma ui_never_validation_witness :
  error (page_state (session telling_a_story)) <> Some validation_message.
Proof.
  apply (ui_never_validation (session telling_a_story) telling_a_story_reachable).
Defined.

Lemma ui_story_is_final_witness :
  offered (session telling_a_story) ClickPrev = true
  /\ form_shown (page_state (perform (session telling_a_story) ClickPrev)) = false.
Proof.
  split; [reflexivity|].
  apply (ui_story_is_final (session telling_a_story) ClickPrev
           telling_a_story_reachable); [discriminate|reflexivity].
Defined.
